(** * contentful-image: URL construction for the Contentful Images API

    A shallow embedding of [src/index.ts] and the properties of its three
    exported functions:

    - [getContentfulImageSrcUrl]  (the "source resolver"),
    - [getContentfulImageQuery]   (the "query builder"),
    - [contentfulImage]           (the "composer", default export).

    The program is pure TypeScript over strings, numbers and plain objects.
    The part of the JavaScript runtime it relies on is modelled in the
    module [JS] below, following ECMA-262 for every primitive that the
    source calls: [String.prototype.replace] with a string pattern,
    [startsWith], [includes], [split], [Array.prototype.join],
    [Number.prototype.toString], [Number.parseInt], [Math.min], [Math.max],
    [Math.round], the [in] operator and property reads. Reading a property
    of [undefined], calling something that is not a function, and using
    [in] on a non-object all raise [TypeError]; this is the only exception
    the program can raise, so abrupt completion is a one-constructor
    type. *)

From Stdlib Require Import String Ascii List ZArith QArith Bool Lia.
From Stdlib Require Import Numbers.DecimalString Numbers.DecimalPos.
From Stdlib Require Import QArith.Qpower QArith.Qround.
Import ListNotations.

Local Open Scope string_scope.
Local Open Scope Z_scope.

(* ===================================================================== *)
(** ** The JavaScript runtime used by the program *)
(* ===================================================================== *)

Module JS.

(** *** Completions: a value, or a thrown exception *)

Inductive exn : Type := TypeError.

Inductive completion (A : Type) : Type :=
| Return (a : A)
| Throw (e : exn).

Arguments Return {A} a.
Arguments Throw {A} e.

Definition bind {A B} (c : completion A) (k : A -> completion B) : completion B :=
  match c with
  | Return a => k a
  | Throw e => Throw e
  end.

(** [Array.prototype.map] with a callback that may throw: the callback runs
    on the elements in order and the first exception aborts the loop. *)
Fixpoint mapM {A B} (f : A -> completion B) (l : list A) : completion (list B) :=
  match l with
  | [] => Return []
  | x :: xs =>
      bind (f x) (fun y => bind (mapM f xs) (fun ys => Return (y :: ys)))
  end.

(** *** Strings

    A string is a sequence of code units; [string] covers the code units
    below 256, which contains every character the program inspects
    ([#], [/], [?], [-], [+], digits and white space). *)

(** [s.includes(c)] for a one-character search string. *)
Fixpoint includes (c : ascii) (s : string) : bool :=
  match s with
  | EmptyString => false
  | String a s' => (a =? c)%char || includes c s'
  end.

(** [s.startsWith(p)]. *)
Definition startsWith (p s : string) : bool := String.prefix p s.

(** [s.replace(c, rep)] where the pattern [c] is a one-character string
    and [rep] contains no [$]: a string pattern replaces the first match
    only (ECMA-262, String.prototype.replace, steps 8-14). *)
Fixpoint replace (c : ascii) (rep : string) (s : string) : string :=
  match s with
  | EmptyString => EmptyString
  | String a s' =>
      if (a =? c)%char then rep ++ s' else String a (replace c rep s')
  end.

(** [s.split(c)] for a one-character separator: the result is never empty,
    so it is computed as its first element and the remaining ones. *)
Fixpoint split_parts (c : ascii) (s : string) : string * list string :=
  match s with
  | EmptyString => (EmptyString, [])
  | String a s' =>
      let (h, t) := split_parts c s' in
      if (a =? c)%char then (EmptyString, h :: t) else (String a h, t)
  end.

Definition split (c : ascii) (s : string) : list string :=
  let (h, t) := split_parts c s in h :: t.

(** [a[i]]: the element, or [undefined] past the end. *)
Definition index {A} (a : list A) (i : nat) : option A := nth_error a i.

(** [a.join(sep)]. *)
Definition join (sep : string) (a : list string) : string := String.concat sep a.

(** Truthiness of a string, and of a string-or-undefined. *)
Definition truthy (s : string) : bool :=
  match s with EmptyString => false | _ => true end.

Definition truthy_opt (o : option string) : bool :=
  match o with Some s => truthy s | None => false end.

(** [a.map((x, i) => f x i)]. *)
Fixpoint mapi_from {A B} (i : nat) (f : A -> nat -> B) (l : list A) : list B :=
  match l with
  | [] => []
  | x :: xs => f x i :: mapi_from (S i) f xs
  end.

Definition mapi {A B} (f : A -> nat -> B) (l : list A) : list B := mapi_from 0 f l.

(** *** Numbers

    A Number is given by the data that [Number::toString] (ECMA-262
    6.1.6.1.20) is defined on: NaN, the infinities, the zeros, and for a
    finite non-zero value its sign with the integers [s] and [n] of the
    shortest decimal expansion [s * 10^(n - k)], where [k] is the number of
    decimal digits of [s]. Every double has such a form; 51.1 is
    [Decimal false 511 2], 10000 is [Decimal false 1 5] and 5e-7 is
    [Decimal false 5 (-6)]. *)

Inductive Number : Type :=
| NaN
| Infinity (negative : bool)
| Zero (negative : bool)
| Decimal (negative : bool) (s : positive) (n : Z).

(** Decimal digits of a positive integer, most significant first. *)
Definition digits (p : positive) : string :=
  NilEmpty.string_of_uint (Pos.to_uint p).

Fixpoint zeros (n : nat) : string :=
  match n with
  | O => EmptyString
  | S n' => String "0" (zeros n')
  end.

Definition Z_digits (z : Z) : string :=
  match z with
  | Z0 => "0"
  | Zpos p => digits p
  | Zneg p => "-" ++ digits p
  end.

(** Steps 5-10 of [Number::toString] in radix 10 for a positive value. *)
Definition toString_positive (s : positive) (n : Z) : string :=
  let ds := digits s in
  let k := Z.of_nat (String.length ds) in
  if (k <=? n) && (n <=? 21) then
    ds ++ zeros (Z.to_nat (n - k))
  else if (0 <? n) && (n <=? 21) then
    substring 0 (Z.to_nat n) ds ++ "." ++ substring (Z.to_nat n) (Z.to_nat (k - n)) ds
  else if (-6 <? n) && (n <=? 0) then
    "0." ++ zeros (Z.to_nat (- n)) ++ ds
  else
    let e := n - 1 in
    let exponent := "e" ++ (if e <? 0 then "-" else "+") ++ Z_digits (Z.abs e) in
    if k =? 1 then ds ++ exponent
    else substring 0 1 ds ++ "." ++ substring 1 (Z.to_nat (k - 1)) ds ++ exponent.

(** [x.toString()] for a Number [x]. *)
Definition Number_toString (x : Number) : string :=
  match x with
  | NaN => "NaN"
  | Zero _ => "0"
  | Infinity negative => (if negative then "-" else "") ++ "Infinity"
  | Decimal negative s n => (if negative then "-" else "") ++ toString_positive s n
  end.

(** The Number of an integer literal: drop the trailing zeros of its
    decimal digits to obtain [s]; [n] is the number of digits. *)
Fixpoint strip_zeros (d : Decimal.uint) : Decimal.uint :=
  match d with
  | Decimal.D0 d' => strip_zeros d'
  | _ => d
  end.

Definition Number_of_pos (negative : bool) (p : positive) : Number :=
  let d := Pos.to_uint p in
  match Pos.of_uint (Decimal.rev (strip_zeros (Decimal.rev d))) with
  | Npos s => Decimal negative s (Z.of_nat (Decimal.nb_digits d))
  | N0 => Zero negative
  end.

Definition Number_of_Z (z : Z) : Number :=
  match z with
  | Z0 => Zero false
  | Zpos p => Number_of_pos false p
  | Zneg p => Number_of_pos true p
  end.

(** The mathematical value of a finite Number, for comparing Numbers. *)
Definition Number_value (x : Number) : option Q :=
  match x with
  | NaN => None
  | Infinity _ => None
  | Zero _ => Some 0%Q
  | Decimal negative s n =>
      let k := Z.of_nat (String.length (digits s)) in
      let m := (inject_Z (Zpos s) * Qpower (10 # 1) (n - k))%Q in
      Some (if negative then (- m)%Q else m)
  end.

(** [x <= y] on Numbers: false as soon as one side is NaN. *)
Definition Number_le (x y : Number) : Prop :=
  match x, y with
  | NaN, _ | _, NaN => False
  | Infinity true, _ => True
  | _, Infinity false => True
  | Infinity false, _ => False
  | _, Infinity true => False
  | _, _ =>
      match Number_value x, Number_value y with
      | Some a, Some b => (a <= b)%Q
      | _, _ => False
      end
  end.

(** *** Number.parseInt(string, 10)

    The result of [parseInt] is an integer-valued Number or NaN, modelled
    as [option Z] with [None] for NaN. For digit strings beyond 2^53 the
    runtime returns the nearest double (or Infinity) instead of the exact
    integer; rounding to a double is monotone and fixes 1 and 100, so
    after the clamp of [quality] the two agree. The sign of a zero result
    is dropped for the same reason: [Math.max(1, -0)] is 1. *)

Definition IntOrNaN : Type := option Z.

(** StrWhiteSpaceChar restricted to code units below 256: TAB, LF, VT, FF,
    CR, SP and NBSP. *)
Definition isWhiteSpace (c : ascii) : bool :=
  let n := nat_of_ascii c in
  ((9 <=? n) && (n <=? 13))%nat || (n =? 32)%nat || (n =? 160)%nat.

Definition isDigit (c : ascii) : bool :=
  let n := nat_of_ascii c in ((48 <=? n) && (n <=? 57))%nat.

Definition digitValue (c : ascii) : Z := Z.of_nat (nat_of_ascii c) - 48.

Fixpoint trimStart (s : string) : string :=
  match s with
  | EmptyString => EmptyString
  | String a s' => if isWhiteSpace a then trimStart s' else s
  end.

(** The value of the longest prefix of radix-10 digits. *)
Fixpoint parseDigits (acc : Z) (s : string) : Z :=
  match s with
  | EmptyString => acc
  | String a s' =>
      if isDigit a then parseDigits (10 * acc + digitValue a) s' else acc
  end.

Definition parseInt (input : string) : IntOrNaN :=
  let S := trimStart input in
  let (sign, S) :=
    match S with
    | String "-" r => (-1, r)
    | String "+" r => (1, r)
    | _ => (1, S)
    end in
  match S with
  | String a _ => if isDigit a then Some (sign * parseDigits 0 S) else None
  | EmptyString => None
  end.

(** [Math.max] and [Math.min] return NaN as soon as an argument is NaN. *)
Definition Math_max (a : Z) (b : IntOrNaN) : IntOrNaN := option_map (Z.max a) b.
Definition Math_min (a : Z) (b : IntOrNaN) : IntOrNaN := option_map (Z.min a) b.

(** [Math.round] of an integer-valued Number or NaN is the argument. *)
Definition Math_round (a : IntOrNaN) : IntOrNaN := a.

(** [toString] of an integer-valued Number below 10^21 in magnitude, or of
    NaN. *)
Definition IntOrNaN_toString (a : IntOrNaN) : string :=
  match a with
  | Some z => Z_digits z
  | None => "NaN"
  end.

(** *** Values held by a source: strings, plain objects, undefined *)

#[warnings="-register-all"]
Inductive Value : Type :=
| Undefined
| Str (s : string)
| Obj (props : list (string * Value)).

Fixpoint assoc {A} (key : string) (l : list (string * A)) : option A :=
  match l with
  | [] => None
  | (k, v) :: l' => if String.eqb key k then Some v else assoc key l'
  end.

(** [key in v]: defined on objects only. *)
Definition has_property (key : string) (v : Value) : completion bool :=
  match v with
  | Obj props => Return (match assoc key props with Some _ => true | None => false end)
  | _ => Throw TypeError
  end.

(** [v.key] for the property names the program reads ([fields], [file],
    [url]): a missing property reads as [undefined], as does any of these
    names on a string; reading from [undefined] throws. *)
Definition get (key : string) (v : Value) : completion Value :=
  match v with
  | Obj props => Return (match assoc key props with Some x => x | None => Undefined end)
  | Str _ => Return Undefined
  | Undefined => Throw TypeError
  end.

End JS.

Import JS.

Notation "x <- c1 ;; c2" := (JS.bind c1 (fun x => c2))
  (at level 61, c1 at next level, right associativity).

(* ===================================================================== *)
(** ** The program: src/index.ts *)
(* ===================================================================== *)

(** [ContentfulImageSource]: a string or an object; the four documented
    shapes are the values built by [src_string], [src_url], [src_file] and
    [src_fields]. *)
Definition ContentfulImageSource : Type := Value.

Definition src_string (u : string) : ContentfulImageSource := Str u.
Definition src_url (u : string) : ContentfulImageSource := Obj [("url", Str u)].
Definition src_file (u : string) : ContentfulImageSource :=
  Obj [("file", Obj [("url", Str u)])].
Definition src_fields (u : string) : ContentfulImageSource :=
  Obj [("fields", Obj [("file", Obj [("url", Str u)])])].

(** A value of an option: every field of [ContentfulImageOptions] is a
    number or a string, and optional, hence possibly [undefined]. *)
Inductive OptionValue : Type :=
| VUndefined
| VNumber (x : Number)
| VString (s : string).

(** [value.toString()]. *)
Definition toString (value : OptionValue) : completion string :=
  match value with
  | VUndefined => Throw TypeError
  | VNumber x => Return (Number_toString x)
  | VString s => Return s
  end.

(** [ContentfulImageOptions], as [Object.entries] lists it: the own
    properties in insertion order. *)
Definition ContentfulImageOptions : Type := list (string * OptionValue).

Definition optionQueryKeys : list (string * list string) :=
  [ ("backgroundColor", ["bg"]);
    ("quality", ["q"]);
    ("radius", ["r"]);
    ("focusArea", ["f"]);
    ("fit", ["fit"]);
    ("height", ["h"]);
    ("width", ["w"]);
    ("format", ["fm"; "fl"]) ].

Definition backgroundColor (value : string) : string :=
  "rgb:" ++ replace "#" "" value.

(** The Number that [quality] stringifies. *)
Definition quality_number (value : string) : IntOrNaN :=
  Math_round (Math_min 100 (Math_max 1 (parseInt value))).

Definition quality (value : string) : string :=
  IntOrNaN_toString (quality_number value).

Definition transformers : list (string * (string -> string)) :=
  [ ("backgroundColor", backgroundColor);
    ("quality", quality) ].

(** [url.split("?")[0]] is read with [hd]: the array of a split always has
    a first element. A raw URL that is not a string has no [startsWith]
    to call. *)
Definition getContentfulImageSrcUrl (src : ContentfulImageSource) : completion string :=
  raw <-
    match src with
    | Str s => Return (Str s)
    | _ =>
        in_fields <- has_property "fields" src ;;
        if in_fields : bool then
          fields <- get "fields" src ;; file <- get "file" fields ;; get "url" file
        else
          in_file <- has_property "file" src ;;
          if in_file : bool then
            file <- get "file" src ;; get "url" file
          else get "url" src
    end ;;
  match raw with
  | Str url =>
      let url := if startsWith "//" url then "https:" ++ url else url in
      let url := if includes "?" url then hd "" (split "?" url) else url in
      Return url
  | _ => Throw TypeError
  end.

(** The pairs produced for one entry of the options: the body of the outer
    [map] callback. [optionQueryKeys[key]] is [undefined] for a key that is
    not in the table, and [queryKeys.map] then throws. (A key inherited
    from [Object.prototype], such as "toString", reads a value that has no
    [map] either, and the call throws the same TypeError.) *)
Definition entryPairs (entry : string * OptionValue) : completion (list string) :=
  let (key, value) := entry in
  let queryKeys := assoc key optionQueryKeys in
  let transformer := assoc key transformers in
  str <- toString value ;;
  let values :=
    split "/" (match transformer with Some t => t str | None => str end) in
  match queryKeys with
  | None => Throw TypeError
  | Some queryKeys =>
      Return
        (filter truthy
           (mapi (fun name i =>
                    if negb (truthy name) || negb (truthy_opt (index values i))
                    then ""
                    else name ++ "=" ++ match index values i with
                                        | Some v => v
                                        | None => "undefined"
                                        end)
                 queryKeys))
  end.

Definition getContentfulImageQuery (options : ContentfulImageOptions) : completion string :=
  parts <- mapM entryPairs options ;;
  Return (join "&" (List.concat parts)).

(** The default export. [options] is [None] when the argument is omitted,
    and then defaults to the empty object. *)
Definition contentfulImage (src : ContentfulImageSource)
    (options : option ContentfulImageOptions) : completion string :=
  let options := match options with Some o => o | None => [] end in
  url <- getContentfulImageSrcUrl src ;;
  query <- getContentfulImageQuery options ;;
  Return (url ++ (if truthy query then "?" ++ query else "")).

(* ===================================================================== *)
(** ** Vocabulary of the specification *)
(* ===================================================================== *)

(** "[v] with every [c] removed". *)
Fixpoint remove_all (c : ascii) (s : string) : string :=
  match s with
  | EmptyString => EmptyString
  | String a s' => if (a =? c)%char then remove_all c s' else String a (remove_all c s')
  end.

(** The number of occurrences of [c] in [s]. *)
Fixpoint occurrences (c : ascii) (s : string) : nat :=
  match s with
  | EmptyString => O
  | String a s' => ((if (a =? c)%char then 1 else 0) + occurrences c s')%nat
  end.

(** "The part before the first occurrence of [c]" (all of [s] when [c]
    does not occur). *)
Fixpoint before_first (c : ascii) (s : string) : string :=
  match s with
  | EmptyString => EmptyString
  | String a s' => if (a =? c)%char then EmptyString else String a (before_first c s')
  end.

(** "One of the eight recognized option names". *)
Definition recognized (key : string) : bool :=
  existsb (String.eqb key)
    ["format"; "width"; "height"; "fit"; "focusArea"; "radius"; "quality";
     "backgroundColor"].

(** "Clamp to the inclusive range [1, 100]". *)
Definition clamp (z : Z) : Z := Z.min 100 (Z.max 1 z).

(** A wire pair, "omitted entirely" when the sub-value is empty. *)
Definition pair_of (name value : string) : list string :=
  if truthy value then [name ++ "=" ++ value] else [].

(** A Number that is neither NaN nor infinite. *)
Definition finite (x : Number) : Prop :=
  match x with
  | Zero _ | Decimal _ _ _ => True
  | NaN | Infinity _ => False
  end.

(** A string of decimal digits only. *)
Fixpoint all_digits (s : string) : bool :=
  match s with
  | EmptyString => true
  | String a s' => isDigit a && all_digits s'
  end.

(** The integer part of a rational, rounding toward zero. *)
Definition Qtruncate (v : Q) : Z :=
  if Qle_bool 0 v then Qfloor v else Qceiling v.

(** A Number that stringifies in plain decimal notation, without an
    exponent: a zero, or a value of magnitude from 1e-6 up to, and not
    including, 1e21. *)
Definition plain (x : Number) : Prop :=
  match x with
  | Zero _ => True
  | Decimal _ _ n => -6 < n <= 21
  | NaN | Infinity _ => False
  end.

(** The value of a sequence of decimal digits read behind the value
    [acc]. *)
Fixpoint uint_value (acc : Z) (d : Decimal.uint) : Z :=
  match d with
  | Decimal.Nil => acc
  | Decimal.D0 d' => uint_value (10 * acc) d'
  | Decimal.D1 d' => uint_value (10 * acc + 1) d'
  | Decimal.D2 d' => uint_value (10 * acc + 2) d'
  | Decimal.D3 d' => uint_value (10 * acc + 3) d'
  | Decimal.D4 d' => uint_value (10 * acc + 4) d'
  | Decimal.D5 d' => uint_value (10 * acc + 5) d'
  | Decimal.D6 d' => uint_value (10 * acc + 6) d'
  | Decimal.D7 d' => uint_value (10 * acc + 7) d'
  | Decimal.D8 d' => uint_value (10 * acc + 8) d'
  | Decimal.D9 d' => uint_value (10 * acc + 9) d'
  end.

(** The integer part of [s * 10^(n - k)], [k] being the number of digits
    of [s]. *)
Definition magnitude_integer (s : positive) (n : Z) : Z :=
  let k := Z.of_nat (String.length (digits s)) in
  if k <=? n then Zpos s * 10 ^ (n - k) else Zpos s / 10 ^ (k - n).

(* ===================================================================== *)
(** ** Lemmas on the string primitives *)
(* ===================================================================== *)

Section StringFacts.

Variable c : ascii.

Lemma append_empty_r (s : string) : s ++ "" = s.
Proof. induction s as [|a s IH]; simpl; [reflexivity | now rewrite IH]. Qed.

Lemma append_assoc (s t r : string) : (s ++ t) ++ r = s ++ t ++ r.
Proof. induction s as [|a s IH]; simpl; [reflexivity | now rewrite IH]. Qed.

Lemma includes_app (s t : string) :
  includes c (s ++ t) = includes c s || includes c t.
Proof.
  induction s as [|a s IH]; simpl; [reflexivity|].
  now rewrite IH, orb_assoc.
Qed.

Lemma includes_occurrences (s : string) :
  includes c s = false <-> occurrences c s = O.
Proof.
  induction s as [|a s IH]; simpl; [tauto|].
  destruct (a =? c)%char; simpl; [split; discriminate | exact IH].
Qed.

Lemma replace_absent (rep s : string) :
  includes c s = false -> replace c rep s = s.
Proof.
  induction s as [|a s IH]; simpl; [reflexivity|].
  destruct (a =? c)%char; simpl; [discriminate|].
  intros H. now rewrite IH.
Qed.

Lemma replace_first (rep s t : string) :
  includes c s = false ->
  replace c rep (s ++ String c t) = s ++ rep ++ t.
Proof.
  induction s as [|a s IH]; simpl.
  - now rewrite Ascii.eqb_refl.
  - destruct (a =? c)%char; simpl; [discriminate|].
    intros H. now rewrite IH.
Qed.

Lemma remove_all_absent (s : string) :
  includes c s = false -> remove_all c s = s.
Proof.
  induction s as [|a s IH]; simpl; [reflexivity|].
  destruct (a =? c)%char; simpl; [discriminate|].
  intros H. now rewrite IH.
Qed.

Lemma replace_remove_all (s : string) :
  (occurrences c s <= 1)%nat -> replace c "" s = remove_all c s.
Proof.
  induction s as [|a s IH]; simpl; [reflexivity|].
  destruct (a =? c)%char; simpl; intros H.
  - symmetry. apply remove_all_absent, includes_occurrences. lia.
  - now rewrite IH.
Qed.

Lemma before_first_absent (s : string) :
  includes c s = false -> before_first c s = s.
Proof.
  induction s as [|a s IH]; simpl; [reflexivity|].
  destruct (a =? c)%char; simpl; [discriminate|].
  intros H. now rewrite IH.
Qed.

Lemma before_first_app (s t : string) :
  includes c s = false -> before_first c (s ++ t) = s ++ before_first c t.
Proof.
  induction s as [|a s IH]; simpl; [reflexivity|].
  destruct (a =? c)%char; simpl; [discriminate|].
  intros H. now rewrite IH.
Qed.

Lemma before_first_stop (s t : string) :
  includes c s = false -> before_first c (s ++ String c t) = s.
Proof.
  intros H. rewrite before_first_app by assumption.
  simpl. rewrite Ascii.eqb_refl. apply append_empty_r.
Qed.

Lemma before_first_prefix (s : string) :
  String.prefix (before_first c s) s = true.
Proof.
  induction s as [|a s IH]; simpl; [reflexivity|].
  destruct (a =? c)%char; simpl; [reflexivity|].
  destruct (ascii_dec a a); [assumption | congruence].
Qed.

Lemma split_parts_fst (s : string) :
  fst (split_parts c s) = before_first c s.
Proof.
  induction s as [|a s IH]; simpl; [reflexivity|].
  destruct (split_parts c s) as [h t]; simpl in IH.
  destruct (a =? c)%char; simpl; [reflexivity | now rewrite IH].
Qed.

Lemma hd_split (s : string) : hd "" (split c s) = before_first c s.
Proof.
  unfold split. rewrite <- split_parts_fst.
  now destruct (split_parts c s).
Qed.

Lemma split_absent (s : string) :
  includes c s = false -> split c s = [s].
Proof.
  unfold split. induction s as [|a s IH]; simpl; [reflexivity|].
  destruct (a =? c)%char; simpl; [discriminate|].
  intros H. specialize (IH H).
  destruct (split_parts c s) as [h t]. now inversion IH.
Qed.

Lemma split_first (s t : string) :
  includes c s = false -> split c (s ++ String c t) = s :: split c t.
Proof.
  unfold split. induction s as [|a s IH]; simpl.
  - rewrite Ascii.eqb_refl. now destruct (split_parts c t).
  - destruct (a =? c)%char; simpl; [discriminate|].
    intros H. specialize (IH H).
    destruct (split_parts c (s ++ String c t)) as [h t'].
    destruct (split_parts c t) as [h2 t2]. now inversion IH.
Qed.

Lemma split_cons (s : string) :
  exists rest, split c s = before_first c s :: rest.
Proof.
  unfold split. rewrite <- split_parts_fst.
  destruct (split_parts c s) as [h t]. now exists t.
Qed.

End StringFacts.

(* ===================================================================== *)
(** ** The backgroundColor transformer *)
(* ===================================================================== *)

(** C1, as stated, fails: with two [#] in the value only the first is
    removed, so the result differs from "rgb:" followed by the value with
    every [#] removed. *)
Lemma backgroundColor_keeps_second_hash :
  backgroundColor "#12#3" = "rgb:12#3" /\
  backgroundColor "#12#3" <> "rgb:" ++ remove_all "#" "#12#3".
Proof. split; [reflexivity | discriminate]. Qed.

(** C1 (amended): [backgroundColor] returns "rgb:" followed by the value
    with its first [#] removed, the rest of the value being kept as it is;
    so for a value with at most one [#] the result is "rgb:" followed by
    the value with every [#] removed. backgroundColor("#123123") is
    "rgb:123123" and backgroundColor("abcabc") is "rgb:abcabc". *)
Theorem backgroundColor_removes_first_hash :
  (forall a b : string,
      includes "#" a = false ->
      backgroundColor (a ++ "#" ++ b) = "rgb:" ++ a ++ b) /\
  (forall v : string,
      (occurrences "#" v <= 1)%nat ->
      backgroundColor v = "rgb:" ++ remove_all "#" v) /\
  backgroundColor "#123123" = "rgb:123123" /\
  backgroundColor "abcabc" = "rgb:abcabc".
Proof.
  repeat split.
  - intros a b Ha. unfold backgroundColor.
    change (a ++ "#" ++ b) with (a ++ String "#" b).
    now rewrite replace_first.
  - intros v Hv. unfold backgroundColor. now rewrite replace_remove_all.
Qed.

Lemma backgroundColor_removes_first_hash_witness :
  backgroundColor ("12" ++ "#" ++ "3#4") = "rgb:" ++ "12" ++ "3#4" /\
  backgroundColor "#abc123" = "rgb:" ++ remove_all "#" "#abc123".
Proof.
  split.
  - apply (proj1 backgroundColor_removes_first_hash "12" "3#4"). reflexivity.
  - apply (proj1 (proj2 backgroundColor_removes_first_hash) "#abc123").
    simpl. lia.
Defined.

(* ===================================================================== *)
(** ** The source resolver *)
(* ===================================================================== *)

Section Resolver.

(** What the resolver does to the raw URL string once it is extracted. *)
Lemma resolve_string (u : string) :
  getContentfulImageSrcUrl (Str u) =
  Return ((if startsWith "//" u then "https:" else "") ++ before_first "?" u).
Proof.
  unfold getContentfulImageSrcUrl. cbn [bind].
  destruct (startsWith "//" u) eqn:Hp.
  - rewrite hd_split, (before_first_app "?" "https:" u eq_refl).
    change (includes "?" ("https:" ++ u)) with (includes "?" u).
    destruct (includes "?" u) eqn:Hq; [reflexivity|].
    now rewrite before_first_absent.
  - rewrite hd_split.
    destruct (includes "?" u) eqn:Hq; [reflexivity|].
    now rewrite before_first_absent.
Qed.

Lemma startsWith_slashes_query (u s : string) :
  includes "?" u = false ->
  startsWith "//" (u ++ "?" ++ s) = startsWith "//" u.
Proof.
  unfold startsWith.
  destruct u as [|a [|b u]]; cbn [append String.prefix]; intros _.
  all: repeat match goal with
         | |- context [ascii_dec ?x ?y] =>
             destruct (ascii_dec x y) as [E|E]; try discriminate E; clear E
         end; try reflexivity.
  now destruct u.
Qed.

(** Resolving an object whose selected path ends in the string [u]. *)
Lemma resolve_fields (props fs fl : list (string * Value)) (u : string) :
  assoc "fields" props = Some (Obj fs) ->
  assoc "file" fs = Some (Obj fl) ->
  assoc "url" fl = Some (Str u) ->
  getContentfulImageSrcUrl (Obj props) = getContentfulImageSrcUrl (Str u).
Proof.
  intros H1 H2 H3. unfold getContentfulImageSrcUrl at 1.
  unfold has_property, get, bind. rewrite H1. simpl. now rewrite H2, H3.
Qed.

Lemma resolve_file (props fl : list (string * Value)) (u : string) :
  assoc "fields" props = None ->
  assoc "file" props = Some (Obj fl) ->
  assoc "url" fl = Some (Str u) ->
  getContentfulImageSrcUrl (Obj props) = getContentfulImageSrcUrl (Str u).
Proof.
  intros H1 H2 H3. unfold getContentfulImageSrcUrl at 1.
  unfold has_property, get, bind. rewrite H1, H2. simpl. now rewrite H3.
Qed.

Lemma resolve_url (props : list (string * Value)) (u : string) :
  assoc "fields" props = None ->
  assoc "file" props = None ->
  assoc "url" props = Some (Str u) ->
  getContentfulImageSrcUrl (Obj props) = getContentfulImageSrcUrl (Str u).
Proof.
  intros H1 H2 H3. unfold getContentfulImageSrcUrl at 1.
  unfold has_property, get, bind. now rewrite H1, H2, H3.
Qed.

(** C5: the four source shapes of one URL resolve to the same string,
    which is the URL up to its first [?], behind "https:" when the URL
    starts with "//". An object that has several of the properties is read
    through [fields] first, then through [file], then through [url]: the
    string returned is the one resolved from the URL found on the first
    of these paths that is present, whatever else the object holds. *)
Theorem resolve_shape_invariant :
  (forall u : string,
      let resolved :=
        Return ((if startsWith "//" u then "https:" else "") ++ before_first "?" u) in
      getContentfulImageSrcUrl (src_string u) = resolved /\
      getContentfulImageSrcUrl (src_url u) = resolved /\
      getContentfulImageSrcUrl (src_file u) = resolved /\
      getContentfulImageSrcUrl (src_fields u) = resolved) /\
  (forall props fs fl u,
      assoc "fields" props = Some (Obj fs) ->
      assoc "file" fs = Some (Obj fl) ->
      assoc "url" fl = Some (Str u) ->
      getContentfulImageSrcUrl (Obj props) =
      Return ((if startsWith "//" u then "https:" else "") ++ before_first "?" u)) /\
  (forall props fl u,
      assoc "fields" props = None ->
      assoc "file" props = Some (Obj fl) ->
      assoc "url" fl = Some (Str u) ->
      getContentfulImageSrcUrl (Obj props) =
      Return ((if startsWith "//" u then "https:" else "") ++ before_first "?" u)) /\
  (forall props u,
      assoc "fields" props = None ->
      assoc "file" props = None ->
      assoc "url" props = Some (Str u) ->
      getContentfulImageSrcUrl (Obj props) =
      Return ((if startsWith "//" u then "https:" else "") ++ before_first "?" u)).
Proof.
  split; [|split; [|split]].
  - intros u resolved. subst resolved. rewrite <- resolve_string.
    split; [reflexivity|]. split; [|split].
    + apply resolve_url; reflexivity.
    + eapply resolve_file; reflexivity.
    + eapply resolve_fields; reflexivity.
  - intros props fs fl u H1 H2 H3.
    rewrite <- resolve_string. exact (resolve_fields props fs fl u H1 H2 H3).
  - intros props fl u H1 H2 H3.
    rewrite <- resolve_string. exact (resolve_file props fl u H1 H2 H3).
  - intros props u H1 H2 H3.
    rewrite <- resolve_string. exact (resolve_url props u H1 H2 H3).
Qed.

Lemma resolve_shape_invariant_witness :
  getContentfulImageSrcUrl
    (Obj [("url", Str "//c/z?q"); ("file", Obj [("url", Str "//b/y?q")]);
          ("fields", Obj [("file", Obj [("url", Str "//a/x?q")])])])
  = Return ((if startsWith "//" "//a/x?q" then "https:" else "")
            ++ before_first "?" "//a/x?q") /\
  getContentfulImageSrcUrl
    (Obj [("url", Str "//c/z?q"); ("file", Obj [("url", Str "http://b/y?q")])])
  = Return ((if startsWith "//" "http://b/y?q" then "https:" else "")
            ++ before_first "?" "http://b/y?q") /\
  getContentfulImageSrcUrl (Obj [("id", Str "1"); ("url", Str "//c/z?q")])
  = Return ((if startsWith "//" "//c/z?q" then "https:" else "")
            ++ before_first "?" "//c/z?q").
Proof.
  destruct resolve_shape_invariant as [_ [Hfields [Hfile Hurl]]].
  split; [|split].
  - eapply Hfields; reflexivity.
  - eapply Hfile; reflexivity.
  - eapply Hurl; reflexivity.
Defined.

(** C6: everything from the first [?] on is dropped: for [u] without [?],
    resolving [u ++ "?" ++ s] gives what resolving [u] gives, which is [u]
    itself behind the scheme the resolver may prepend. *)
Theorem resolve_strips_query (u s : string) :
  includes "?" u = false ->
  getContentfulImageSrcUrl (Str (u ++ "?" ++ s)) = getContentfulImageSrcUrl (Str u) /\
  getContentfulImageSrcUrl (Str (u ++ "?" ++ s)) =
    Return ((if startsWith "//" u then "https:" else "") ++ u).
Proof.
  intros Hu. rewrite !resolve_string.
  rewrite startsWith_slashes_query by assumption.
  change (u ++ "?" ++ s) with (u ++ String "?" s).
  rewrite before_first_stop by assumption.
  now rewrite before_first_absent.
Qed.

Lemma resolve_strips_query_witness :
  getContentfulImageSrcUrl (Str ("//a.b.c/img" ++ "?" ++ "a=b?c=d")) =
    getContentfulImageSrcUrl (Str "//a.b.c/img") /\
  getContentfulImageSrcUrl (Str ("//a.b.c/img" ++ "?" ++ "a=b?c=d")) =
    Return ((if startsWith "//" "//a.b.c/img" then "https:" else "") ++ "//a.b.c/img").
Proof. apply (resolve_strips_query "//a.b.c/img" "a=b?c=d"). reflexivity. Defined.

(** C7: the scheme "https:" is put in front of the result exactly when the
    raw URL starts with "//"; otherwise the result is a prefix of the raw
    URL. compose("//a.b.c/img?a=b") is "https://a.b.c/img". *)
Theorem resolve_https_iff_protocol_relative (u : string) :
  (startsWith "//" u = true ->
   getContentfulImageSrcUrl (Str u) = Return ("https:" ++ before_first "?" u)) /\
  (startsWith "//" u = false ->
   getContentfulImageSrcUrl (Str u) = Return (before_first "?" u) /\
   String.prefix (before_first "?" u) u = true) /\
  contentfulImage (Str "//a.b.c/img?a=b") None = Return "https://a.b.c/img".
Proof.
  rewrite resolve_string. split; [|split].
  - intros ->. reflexivity.
  - intros ->. split; [reflexivity | apply before_first_prefix].
  - reflexivity.
Qed.

Lemma resolve_https_iff_protocol_relative_witness :
  getContentfulImageSrcUrl (Str "//a.b.c/img?a=b") =
    Return ("https:" ++ before_first "?" "//a.b.c/img?a=b") /\
  getContentfulImageSrcUrl (Str "/a//b?c") = Return (before_first "?" "/a//b?c").
Proof.
  split.
  - apply (proj1 (resolve_https_iff_protocol_relative "//a.b.c/img?a=b")). reflexivity.
  - apply (proj1 (proj2 (resolve_https_iff_protocol_relative "/a//b?c"))). reflexivity.
Defined.

(** The precedence is no fallback: when [fields] is present but does not
    lead to a URL, the properties [file] and [url] are not consulted. *)
Example resolve_fields_no_fallback :
  getContentfulImageSrcUrl
    (Obj [("fields", Undefined); ("file", Obj [("url", Str "//b/y")]);
          ("url", Str "//c/z")])
  = Throw TypeError.
Proof. reflexivity. Qed.

End Resolver.

(* ===================================================================== *)
(** ** The query builder *)
(* ===================================================================== *)

Section QueryBuilder.

Lemma throw_TypeError {A} (e : exn) : @Throw A e = Throw TypeError.
Proof. now destruct e. Qed.

Lemma mapM_throws {A B} (f : A -> completion B) (l : list A) (x : A) :
  In x l -> f x = Throw TypeError -> mapM f l = Throw TypeError.
Proof.
  intros Hin Hx. induction l as [|y l IH]; [contradiction|].
  simpl. destruct Hin as [-> | Hin].
  - now rewrite Hx.
  - destruct (f y) as [b | e]; simpl; [|apply throw_TypeError].
    now rewrite IH.
Qed.

Lemma mapM_returns {A B} (f : A -> completion B) (l : list A) :
  Forall (fun x => exists y, f x = Return y) l ->
  exists ys, mapM f l = Return ys.
Proof.
  induction 1 as [|x l [y Hy] _ [ys IH]]; simpl.
  - now exists [].
  - rewrite Hy, IH. simpl. now exists (y :: ys).
Qed.

(** The recognized names are the keys of the Query Key Table. *)
Lemma recognized_optionQueryKeys (key : string) :
  recognized key = false <-> assoc key optionQueryKeys = None.
Proof.
  unfold recognized, optionQueryKeys, existsb, assoc.
  destruct (String.eqb key "format"), (String.eqb key "width"),
    (String.eqb key "height"), (String.eqb key "fit"),
    (String.eqb key "focusArea"), (String.eqb key "radius"),
    (String.eqb key "quality"), (String.eqb key "backgroundColor");
    simpl; split; intros H; try reflexivity; discriminate H.
Qed.

Lemma entryPairs_unrecognized (key : string) (value : OptionValue) :
  recognized key = false -> entryPairs (key, value) = Throw TypeError.
Proof.
  intros H. apply recognized_optionQueryKeys in H.
  unfold entryPairs. rewrite H.
  destruct (toString value) as [str | e]; simpl; [reflexivity|].
  apply throw_TypeError.
Qed.

Lemma entryPairs_recognized (key : string) (value : OptionValue) :
  recognized key = true -> value <> VUndefined ->
  exists pairs, entryPairs (key, value) = Return pairs.
Proof.
  intros Hk Hv. unfold entryPairs.
  destruct (assoc key optionQueryKeys) as [keys|] eqn:E.
  - destruct value as [|x|s]; [congruence| |]; simpl; eauto.
  - apply recognized_optionQueryKeys in E. congruence.
Qed.

(** The builder returns a query string for every options object whose
    names are all recognized and whose values are all defined. *)
Lemma query_returns (options : ContentfulImageOptions) :
  Forall (fun entry => recognized (fst entry) = true /\ snd entry <> VUndefined)
    options ->
  exists query, getContentfulImageQuery options = Return query.
Proof.
  intros H. unfold getContentfulImageQuery.
  destruct (mapM_returns entryPairs options) as [parts Hparts].
  - eapply Forall_impl; [|exact H].
    intros [key value] [Hk Hv]. now apply entryPairs_recognized.
  - rewrite Hparts. simpl. eauto.
Qed.

(** C2, as stated, fails: an entry with an unknown name is not ignored;
    the query of the recognized entries alone is not what the builder
    produces, it throws. *)
Lemma query_unrecognized_not_ignored :
  let options := [("width", VNumber (Number_of_Z 123)); ("blur", VNumber (Number_of_Z 5))] in
  getContentfulImageQuery options = Throw TypeError /\
  getContentfulImageQuery (filter (fun entry => recognized (fst entry)) options)
    = Return "w=123" /\
  getContentfulImageQuery options <>
    getContentfulImageQuery (filter (fun entry => recognized (fst entry)) options).
Proof. repeat split. discriminate. Qed.

(** C2 (amended): for every options object with an entry whose name is not
    one of the eight recognized option names, the query builder fails: the
    lookup in the Query Key Table gives [undefined] and mapping over it
    throws a TypeError; no query string is produced. *)
Theorem query_unrecognized_throws
    (options : ContentfulImageOptions) (key : string) (value : OptionValue) :
  In (key, value) options ->
  recognized key = false ->
  getContentfulImageQuery options = Throw TypeError.
Proof.
  intros Hin Hkey. unfold getContentfulImageQuery.
  rewrite (mapM_throws entryPairs options (key, value) Hin); [reflexivity|].
  now apply entryPairs_unrecognized.
Qed.

Lemma query_unrecognized_throws_witness :
  getContentfulImageQuery
    [("width", VNumber (Number_of_Z 123)); ("blur", VNumber (Number_of_Z 5))]
  = Throw TypeError.
Proof.
  apply (query_unrecognized_throws _ "blur" (VNumber (Number_of_Z 5))).
  - simpl. right. left. reflexivity.
  - reflexivity.
Defined.

Lemma format_queryKeys : assoc "format" optionQueryKeys = Some ["fm"; "fl"].
Proof. reflexivity. Qed.

Lemma format_transformer : assoc "format" transformers = None.
Proof. reflexivity. Qed.

(** The query of a lone [format] option, from the sub-values of its split. *)
Lemma query_format (v first : string) (others : list string) :
  split "/" v = first :: others ->
  getContentfulImageQuery [("format", VString v)] =
  Return (join "&" (pair_of "fm" first ++ pair_of "fl" (hd "" others))).
Proof.
  intros Hsplit. unfold getContentfulImageQuery, mapM, entryPairs.
  rewrite format_queryKeys, format_transformer.
  cbn [toString bind]. rewrite Hsplit.
  unfold mapi, mapi_from, index, nth_error, pair_of.
  destruct first as [|a first]; destruct others as [|[|b second] others];
    reflexivity.
Qed.

(** C9: the value of [format] is split on [/] and its sub-values are paired
    by index with the wire names [fm] and [fl]; a pair whose sub-value is
    missing or empty is left out. So "png/png8" gives "fm=png&fl=png8" and
    "png" gives "fm=png", with no "fl=" behind it. *)
Theorem query_format_fan_out :
  (forall a rest : string,
      includes "/" a = false ->
      getContentfulImageQuery [("format", VString (a ++ "/" ++ rest))] =
      Return (join "&" (pair_of "fm" a ++ pair_of "fl" (before_first "/" rest)))) /\
  (forall a : string,
      includes "/" a = false ->
      getContentfulImageQuery [("format", VString a)] =
      Return (join "&" (pair_of "fm" a))) /\
  getContentfulImageQuery [("format", VString "png/png8")] = Return "fm=png&fl=png8" /\
  getContentfulImageQuery [("format", VString "png")] = Return "fm=png".
Proof.
  repeat split.
  - intros a rest Ha.
    destruct (split_cons "/" rest) as [others Hrest].
    rewrite (query_format _ a (before_first "/" rest :: others)); [reflexivity|].
    change (a ++ "/" ++ rest) with (a ++ String "/" rest).
    now rewrite split_first, Hrest.
  - intros a Ha.
    rewrite (query_format _ a []); [|now apply split_absent].
    simpl. now rewrite List.app_nil_r.
Qed.

Lemma query_format_fan_out_witness :
  getContentfulImageQuery [("format", VString ("jpg" ++ "/" ++ "progressive/x"))] =
    Return (join "&" (pair_of "fm" "jpg" ++ pair_of "fl" (before_first "/" "progressive/x"))) /\
  getContentfulImageQuery [("format", VString "webp")] =
    Return (join "&" (pair_of "fm" "webp")).
Proof.
  split.
  - apply (proj1 query_format_fan_out "jpg" "progressive/x"). reflexivity.
  - apply (proj1 (proj2 query_format_fan_out) "webp"). reflexivity.
Defined.

(** C10: a [quality] of NaN stringifies as "NaN", fails the integer parse,
    goes through the clamp as NaN, and the builder returns the pair
    "q=NaN" without throwing. *)
Theorem query_quality_NaN :
  Number_toString NaN = "NaN" /\
  parseInt "NaN" = None /\
  quality "NaN" = "NaN" /\
  getContentfulImageQuery [("quality", VNumber NaN)] = Return "q=NaN" /\
  contentfulImage (Str "https://a.b.c/") (Some [("quality", VNumber NaN)]) =
    Return "https://a.b.c/?q=NaN".
Proof. repeat split. Qed.

End QueryBuilder.

(* ===================================================================== *)
(** ** The composer *)
(* ===================================================================== *)

Section Composer.

Lemma query_empty_options : getContentfulImageQuery [] = Return "".
Proof. reflexivity. Qed.

(** C8: [contentfulImage] returns the resolved URL as it is when the query
    is empty, and the resolved URL, a [?] and the query otherwise; without
    options it is the resolver, with no [?] at the end. *)
Theorem compose_url_query :
  (forall src, contentfulImage src None = getContentfulImageSrcUrl src) /\
  (forall src options url query,
      getContentfulImageSrcUrl src = Return url ->
      getContentfulImageQuery options = Return query ->
      (query = "" -> contentfulImage src (Some options) = Return url) /\
      (query <> "" ->
       contentfulImage src (Some options) = Return (url ++ "?" ++ query))).
Proof.
  split.
  - intros src. unfold contentfulImage. rewrite query_empty_options.
    destruct (getContentfulImageSrcUrl src) as [url | e]; simpl; [|reflexivity].
    now rewrite append_empty_r.
  - intros src options url query Hurl Hquery.
    unfold contentfulImage. rewrite Hurl, Hquery. simpl.
    split; intros H.
    + subst query. simpl. now rewrite append_empty_r.
    + destruct query; [congruence | reflexivity].
Qed.

Lemma compose_url_query_witness :
  contentfulImage (Str "https://a.b.c/")
    (Some [("width", VNumber (Number_of_Z 123)); ("height", VNumber (Number_of_Z 456))])
  = Return ("https://a.b.c/" ++ "?" ++ "w=123&h=456") /\
  contentfulImage (src_file "//a.b.c/img?x") (Some [("format", VString "/")])
  = Return "https://a.b.c/img".
Proof.
  split.
  - refine (proj2 (proj2 compose_url_query (Str "https://a.b.c/") _ _ "w=123&h=456" _ _) _);
      [reflexivity | reflexivity | discriminate].
  - refine (proj1 (proj2 compose_url_query (src_file "//a.b.c/img?x") _ _ "" _ _) _);
      reflexivity.
Defined.

End Composer.

(* ===================================================================== *)
(** ** The quality transformer *)
(* ===================================================================== *)

Section Quality.

(** A property of the integers from 1 to 100 that is checked by running
    it on each of them. *)
Lemma range_1_100 (P : Z -> bool) :
  forallb P (map Z.of_nat (seq 1 100)) = true ->
  forall q, 1 <= q <= 100 -> P q = true.
Proof.
  intros Hall q Hq. rewrite forallb_forall in Hall. apply Hall.
  rewrite <- (Z2Nat.id q) by lia.
  apply in_map, in_seq. lia.
Qed.

Lemma clamp_range (z : Z) : 1 <= clamp z <= 100.
Proof. unfold clamp. lia. Qed.

Lemma clamp_fixed (q : Z) : 1 <= q <= 100 -> clamp q = q.
Proof. unfold clamp. lia. Qed.

Lemma clamp_monotone (x y : Z) : x <= y -> clamp x <= clamp y.
Proof. unfold clamp. lia. Qed.

Lemma quality_number_parsed (value : string) (z : Z) :
  parseInt value = Some z -> quality_number value = Some (clamp z).
Proof. intros H. unfold quality_number. now rewrite H. Qed.

Lemma quality_number_NaN (value : string) :
  parseInt value = None -> quality_number value = None.
Proof. intros H. unfold quality_number. now rewrite H. Qed.

(** The decimal digits of a positive integer start with a digit. *)
Lemma digits_head (p : positive) :
  exists a r, digits p = String a r /\ isDigit a = true.
Proof.
  unfold digits. pose proof (Unsigned.to_uint_nonnil p) as Hnil.
  destruct (Pos.to_uint p); [congruence | ..]; simpl; eauto.
Qed.

Lemma toString_positive_head (s : positive) (n : Z) :
  exists a r, toString_positive s n = String a r /\ isDigit a = true.
Proof.
  unfold toString_positive.
  destruct (digits_head s) as (a & r & -> & Ha).
  set (k := Z.of_nat (String.length (String a r))).
  destruct ((k <=? n) && (n <=? 21)); [simpl; eauto|].
  destruct ((0 <? n) && (n <=? 21)) eqn:Hn.
  - apply andb_prop in Hn. destruct Hn as [Hn _]. apply Z.ltb_lt in Hn.
    destruct (Z.to_nat n) as [|m] eqn:Hm; [lia|]. simpl. eauto.
  - destruct ((-6 <? n) && (n <=? 0)); [simpl; eauto|].
    destruct (k =? 1); simpl; eauto.
Qed.

(** [parseInt] on a string that starts with a digit, with or without a
    minus sign in front. *)
Lemma parseInt_digit (a : ascii) (r : string) :
  isDigit a = true ->
  parseInt (String a r) = Some (parseDigits 0 (String a r)) /\
  parseInt (String "-" (String a r)) = Some (- parseDigits 0 (String a r)).
Proof.
  intros Ha.
  assert (Hminus : forall z, -1 * z = - z) by (intros; lia).
  assert (Hplus : forall z, 1 * z = z) by (intros; lia).
  destruct a as [[] [] [] [] [] [] [] []]; try discriminate Ha;
    cbv -[Z.mul Z.opp parseDigits];
    rewrite Hminus, Hplus; split; reflexivity.
Qed.

(** The stringified form of every finite Number parses as an integer. *)
Lemma parseInt_finite (x : Number) :
  finite x -> exists z, parseInt (Number_toString x) = Some z.
Proof.
  destruct x as [| neg | neg | neg s n]; simpl; try contradiction; intros _.
  - now exists 0.
  - destruct (toString_positive_head s n) as (a & r & -> & Ha).
    destruct (parseInt_digit a r Ha) as [Hpos Hneg].
    destruct neg; simpl; [rewrite Hneg | rewrite Hpos]; eauto.
Qed.

Lemma parseInt_Z_digits (q : Z) : 1 <= q <= 100 -> parseInt (Z_digits q) = Some q.
Proof.
  intros Hq.
  pose proof (range_1_100
    (fun q => match parseInt (Z_digits q) with Some z => z =? q | None => false end)
    eq_refl q Hq) as H.
  simpl in H. destruct (parseInt (Z_digits q)) as [z|]; [|discriminate].
  apply Z.eqb_eq in H. now subst.
Qed.

Lemma all_digits_Z_digits (q : Z) : 1 <= q <= 100 -> all_digits (Z_digits q) = true.
Proof. apply (range_1_100 (fun q => all_digits (Z_digits q))). reflexivity. Qed.

(** On an integer from 1 to 100 [quality] is the identity. *)
Lemma quality_in_range (q : Z) :
  1 <= q <= 100 -> quality (Number_toString (Number_of_Z q)) = Z_digits q.
Proof.
  intros Hq. apply String.eqb_eq. revert q Hq.
  apply (range_1_100
           (fun q => String.eqb (quality (Number_toString (Number_of_Z q))) (Z_digits q))).
  reflexivity.
Qed.

(** Applying [quality] twice is applying it once, on every string. *)
Lemma quality_idempotent (value : string) : quality (quality value) = quality value.
Proof.
  unfold quality at 2 3.
  destruct (parseInt value) as [z|] eqn:Hparse.
  - rewrite (quality_number_parsed value z Hparse). simpl.
    unfold quality.
    rewrite (quality_number_parsed _ (clamp z)
               (parseInt_Z_digits (clamp z) (clamp_range z))).
    simpl. now rewrite clamp_fixed by apply clamp_range.
  - rewrite (quality_number_NaN value Hparse). reflexivity.
Qed.

(** On two strings that both parse, the Numbers produced by [quality] are
    ordered as the parsed integers are. *)
Lemma quality_number_monotone (v w : string) (x y : Z) :
  parseInt v = Some x -> parseInt w = Some y -> x <= y ->
  exists p q, quality_number v = Some p /\ quality_number w = Some q /\ p <= q.
Proof.
  intros Hv Hw Hxy. exists (clamp x), (clamp y).
  rewrite (quality_number_parsed v x Hv), (quality_number_parsed w y Hw).
  auto using clamp_monotone.
Qed.

(** C3, as stated, fails: NaN is a numeric value, and for it [quality]
    returns "NaN", which is the decimal form of no integer in [1, 100]. *)
Lemma quality_NaN_not_in_range :
  quality (Number_toString NaN) = "NaN" /\
  ~ (exists q, 1 <= q <= 100 /\ quality (Number_toString NaN) = Z_digits q).
Proof.
  split; [reflexivity|].
  intros (q & Hq & H).
  pose proof (all_digits_Z_digits q Hq) as Hd.
  rewrite <- H in Hd. discriminate Hd.
Qed.

(** C3 (amended): for every finite numeric value [v], the stringified [v]
    parses as a base-10 integer [z], and [quality] returns the plain
    decimal digits, with no decimal point, of [z] clamped to [1, 100];
    quality(0) = "1", quality(-1) = "1", quality(10000) = "100" and
    quality(51.1) = "51". For NaN the parse fails and [quality] returns
    "NaN". *)
Theorem quality_clamps_finite :
  (forall v : Number,
      finite v ->
      exists z,
        parseInt (Number_toString v) = Some z /\
        quality (Number_toString v) = Z_digits (clamp z) /\
        1 <= clamp z <= 100 /\
        all_digits (quality (Number_toString v)) = true) /\
  quality (Number_toString (Number_of_Z 0)) = "1" /\
  quality (Number_toString (Number_of_Z (-1))) = "1" /\
  quality (Number_toString (Number_of_Z 10000)) = "100" /\
  quality (Number_toString (Decimal false 511 2)) = "51" /\
  quality (Number_toString NaN) = "NaN".
Proof.
  repeat apply conj; try reflexivity.
  intros v Hv. destruct (parseInt_finite v Hv) as [z Hz].
  exists z. unfold quality. rewrite (quality_number_parsed _ z Hz). simpl.
  split; [exact Hz|]. split; [reflexivity|]. split; [apply clamp_range|].
  apply all_digits_Z_digits, clamp_range.
Qed.

Lemma quality_clamps_finite_witness :
  exists z,
    parseInt (Number_toString (Decimal false 511 2)) = Some z /\
    quality (Number_toString (Decimal false 511 2)) = Z_digits (clamp z) /\
    1 <= clamp z <= 100 /\
    all_digits (quality (Number_toString (Decimal false 511 2))) = true.
Proof. apply (proj1 quality_clamps_finite (Decimal false 511 2)). exact I. Defined.

(** C4 fails on the code: numbers that stringify in exponent notation are
    parsed up to the [e] only. 5e-7 <= 1 but [quality] produces 5 for 5e-7
    and 1 for 1; 50 <= 1e21 but [quality] produces 50 for 50 and 1 for
    1e21. *)
Theorem quality_not_monotonic :
  let tiny := Decimal false 5 (-6) in
  let one := Number_of_Z 1 in
  let fifty := Number_of_Z 50 in
  let huge := Number_of_Z (10 ^ 21) in
  (Number_toString tiny = "5e-7" /\ Number_toString huge = "1e+21") /\
  (Number_le tiny one /\
   quality_number (Number_toString tiny) = Some 5 /\
   quality_number (Number_toString one) = Some 1) /\
  (Number_le fifty huge /\
   quality_number (Number_toString fifty) = Some 50 /\
   quality_number (Number_toString huge) = Some 1).
Proof.
  cbv zeta. split; [split; vm_compute; reflexivity|].
  split; (split; [vm_compute; discriminate | split; vm_compute; reflexivity]).
Qed.

End Quality.

(* ===================================================================== *)
(** ** Further properties of the source resolver *)
(* ===================================================================== *)

Section ResolverFacts.

Lemma includes_before_first (c : ascii) (s : string) :
  includes c (before_first c s) = false.
Proof.
  induction s as [|a s IH]; simpl; [reflexivity|].
  destruct (a =? c)%char eqn:E; simpl; [reflexivity|].
  now rewrite E.
Qed.

Lemma startsWith_slashes_before_query (u : string) :
  startsWith "//" u = false -> startsWith "//" (before_first "?" u) = false.
Proof.
  unfold startsWith.
  destruct u as [|a [|b u]]; cbn [before_first String.prefix]; try reflexivity.
  - destruct (a =? "?")%char; [reflexivity|].
    cbn [String.prefix]. now destruct (ascii_dec "/" a).
  - destruct (a =? "?")%char; [reflexivity|].
    destruct (b =? "?")%char; cbn [String.prefix];
      destruct (ascii_dec "/" a); try reflexivity.
    destruct (ascii_dec "/" b); [|reflexivity].
    destruct u; [discriminate|]. cbn [String.prefix]. discriminate.
Qed.

(** Whatever the shape of the source, a result of the resolver comes from
    a raw URL string [u] that it extracted. *)
Lemma resolve_result_shape (src : ContentfulImageSource) (url : string) :
  getContentfulImageSrcUrl src = Return url ->
  exists u,
    url = (if startsWith "//" u then "https:" else "") ++ before_first "?" u.
Proof.
  unfold getContentfulImageSrcUrl.
  match goal with
  | |- bind ?raw _ = _ -> _ => destruct raw as [[| u | props] | e]
  end; cbn [bind]; try discriminate.
  intros H. exists u. pose proof (resolve_string u) as Hu.
  unfold getContentfulImageSrcUrl in Hu. cbn [bind] in Hu.
  rewrite Hu in H. now inversion H.
Qed.

Lemma resolve_result_no_query (src : ContentfulImageSource) (url : string) :
  getContentfulImageSrcUrl src = Return url -> includes "?" url = false.
Proof.
  intros H. destruct (resolve_result_shape src url H) as [u ->].
  rewrite includes_app, includes_before_first.
  now destruct (startsWith "//" u).
Qed.

Lemma resolve_result_no_slashes (src : ContentfulImageSource) (url : string) :
  getContentfulImageSrcUrl src = Return url -> startsWith "//" url = false.
Proof.
  intros H. destruct (resolve_result_shape src url H) as [u ->].
  destruct (startsWith "//" u) eqn:Hu; [reflexivity|].
  now apply startsWith_slashes_before_query.
Qed.

Lemma resolve_query_dropped (u old : string) :
  includes "?" u = false ->
  getContentfulImageSrcUrl (Str (u ++ "?" ++ old)) = getContentfulImageSrcUrl (Str u).
Proof.
  intros Hu. rewrite !resolve_string.
  rewrite startsWith_slashes_query by assumption.
  change (u ++ "?" ++ old) with (u ++ String "?" old).
  rewrite before_first_stop by assumption.
  now rewrite before_first_absent.
Qed.

(** X1: a URL returned by the resolver, from any source, holds no [?] and
    does not start with "//": the query is gone and the URL is no longer
    protocol-relative. *)
Theorem resolve_result_normalized (src : ContentfulImageSource) (url : string) :
  getContentfulImageSrcUrl src = Return url ->
  includes "?" url = false /\ startsWith "//" url = false.
Proof.
  intros H. split.
  - exact (resolve_result_no_query src url H).
  - exact (resolve_result_no_slashes src url H).
Qed.

Lemma resolve_result_normalized_witness :
  includes "?" "https://a.b.c/img" = false /\
  startsWith "//" "https://a.b.c/img" = false.
Proof.
  apply (resolve_result_normalized (src_fields "//a.b.c/img?w=1&h=2")).
  reflexivity.
Defined.

(** X2: the resolver is idempotent: a URL it returned, given back to it as
    a string source, is returned unchanged. *)
Theorem resolve_idempotent (src : ContentfulImageSource) (url : string) :
  getContentfulImageSrcUrl src = Return url ->
  getContentfulImageSrcUrl (Str url) = Return url.
Proof.
  intros H. rewrite resolve_string.
  rewrite (resolve_result_no_slashes src url H).
  now rewrite (before_first_absent "?" url (resolve_result_no_query src url H)).
Qed.

Lemma resolve_idempotent_witness :
  getContentfulImageSrcUrl (Str "https://a.b.c/img") = Return "https://a.b.c/img".
Proof.
  apply (resolve_idempotent (src_file "//a.b.c/img?fm=png")). reflexivity.
Defined.

(** X3: the shape test is exclusive. Once an object has [fields], the
    result, a thrown TypeError included, is that of the object reduced to
    its [fields]; [file] and [url] beside it are never read. Without
    [fields] but with [file], the result is that of the object reduced to
    its [file]; [url] is never read. *)
Theorem resolve_first_shape_only (props : list (string * Value)) (v : Value) :
  (assoc "fields" props = Some v ->
   getContentfulImageSrcUrl (Obj props) =
   getContentfulImageSrcUrl (Obj [("fields", v)])) /\
  (assoc "fields" props = None ->
   assoc "file" props = Some v ->
   getContentfulImageSrcUrl (Obj props) =
   getContentfulImageSrcUrl (Obj [("file", v)])).
Proof.
  split.
  - intros H. unfold getContentfulImageSrcUrl, has_property, get.
    rewrite H. reflexivity.
  - intros H1 H2. unfold getContentfulImageSrcUrl, has_property, get.
    rewrite H1, H2. reflexivity.
Qed.

Lemma resolve_first_shape_only_witness :
  getContentfulImageSrcUrl
    (Obj [("url", Str "//c/z"); ("fields", Str "oops"); ("file", Obj [("url", Str "//b/y")])])
  = getContentfulImageSrcUrl (Obj [("fields", Str "oops")]) /\
  getContentfulImageSrcUrl
    (Obj [("url", Str "//c/z"); ("file", Obj [("url", Str "//b/y")])])
  = getContentfulImageSrcUrl (Obj [("file", Obj [("url", Str "//b/y")])]).
Proof.
  split.
  - apply (proj1 (resolve_first_shape_only _ (Str "oops"))). reflexivity.
  - apply (proj2 (resolve_first_shape_only _ (Obj [("url", Str "//b/y")])));
      reflexivity.
Defined.

(** X4: a source with none of the three shapes makes the resolver throw:
    [undefined], and every object without [fields] and [file] whose [url]
    is absent or not a string. *)
Theorem resolve_without_url_throws (props : list (string * Value)) :
  assoc "fields" props = None ->
  assoc "file" props = None ->
  (forall u, assoc "url" props <> Some (Str u)) ->
  getContentfulImageSrcUrl (Obj props) = Throw TypeError /\
  getContentfulImageSrcUrl Undefined = Throw TypeError.
Proof.
  intros H1 H2 H3. split; [|reflexivity].
  unfold getContentfulImageSrcUrl, has_property, get. rewrite H1, H2.
  cbn [bind]. destruct (assoc "url" props) as [[| u | o]|]; try reflexivity.
  now destruct (H3 u).
Qed.

Lemma resolve_without_url_throws_witness :
  getContentfulImageSrcUrl (Obj [("src", Str "//a.b.c/img")]) = Throw TypeError /\
  getContentfulImageSrcUrl Undefined = Throw TypeError.
Proof.
  apply (resolve_without_url_throws [("src", Str "//a.b.c/img")]);
    [reflexivity | reflexivity | discriminate].
Defined.

End ResolverFacts.

(* ===================================================================== *)
(** ** Further properties of the query builder *)
(* ===================================================================== *)

Section QueryFacts.

Lemma mapM_returns_inv {A B} (f : A -> completion B) (l : list A) (ys : list B) :
  mapM f l = Return ys -> Forall2 (fun x y => f x = Return y) l ys.
Proof.
  revert ys. induction l as [|x l IH]; simpl; intros ys H.
  - inversion H. constructor.
  - destruct (f x) as [y|e] eqn:Hx; simpl in H; [|discriminate].
    destruct (mapM f l) as [ys'|e]; simpl in H; [|discriminate].
    inversion H. subst. constructor; auto.
Qed.

Lemma mapM_app {A B} (f : A -> completion B) (l1 l2 : list A) (ys1 ys2 : list B) :
  mapM f l1 = Return ys1 -> mapM f l2 = Return ys2 ->
  mapM f (l1 ++ l2)%list = Return (ys1 ++ ys2)%list.
Proof.
  revert ys1. induction l1 as [|x l1 IH]; simpl; intros ys1 H1 H2.
  - inversion H1. assumption.
  - destruct (f x) as [y|e]; simpl in *; [|discriminate].
    destruct (mapM f l1) as [ys|e]; simpl in *; [|discriminate].
    inversion H1. subst. now rewrite (IH ys eq_refl H2).
Qed.

Lemma entryPairs_returns_inv (key : string) (value : OptionValue) (pairs : list string) :
  entryPairs (key, value) = Return pairs ->
  recognized key = true /\ value <> VUndefined.
Proof.
  intros H. split.
  - destruct (recognized key) eqn:E; [reflexivity|].
    rewrite (entryPairs_unrecognized key value E) in H. discriminate.
  - intros ->. unfold entryPairs in H. simpl in H. discriminate.
Qed.

(** Every sub-value of a split is free of the separator. *)
Lemma split_parts_no_separator (c : ascii) (s : string) :
  includes c (fst (split_parts c s)) = false /\
  Forall (fun v => includes c v = false) (snd (split_parts c s)).
Proof.
  induction s as [|a s [IHh IHt]]; simpl; [split; [reflexivity | constructor]|].
  destruct (split_parts c s) as [h t]. simpl in IHh, IHt.
  destruct (a =? c)%char eqn:E; simpl.
  - split; [reflexivity | constructor; assumption].
  - rewrite E. split; assumption.
Qed.

Lemma split_no_separator (c : ascii) (s : string) :
  Forall (fun v => includes c v = false) (split c s).
Proof.
  unfold split. pose proof (split_parts_no_separator c s) as [Hh Ht].
  destruct (split_parts c s) as [h t]. constructor; assumption.
Qed.

(** What [queryKeys.map(...).filter(...)] leaves, for any list of wire
    names and any list of sub-values. *)
Lemma paired_filter (values keys : list string) (i : nat) :
  let pairs :=
    filter truthy
      (mapi_from i
         (fun name j =>
            if negb (truthy name) || negb (truthy_opt (index values j))
            then ""
            else name ++ "=" ++ match index values j with
                                | Some v => v
                                | None => "undefined"
                                end)
         keys) in
  (List.length pairs <= List.length keys)%nat /\
  Forall (fun p => exists name v,
              In name keys /\ In v values /\ v <> "" /\ p = name ++ "=" ++ v)
    pairs.
Proof.
  revert i. induction keys as [|name keys IH]; intros i; simpl.
  - split; [lia | constructor].
  - destruct (IH (S i)) as [Hlen Hall]. simpl in Hlen, Hall.
    assert (Hrest :
      Forall (fun p => exists name0 v,
                  In name0 (name :: keys) /\ In v values /\ v <> "" /\
                  p = name0 ++ "=" ++ v)
        (filter truthy
           (mapi_from (S i)
              (fun name j =>
                 if negb (truthy name) || negb (truthy_opt (index values j))
                 then ""
                 else name ++ "=" ++ match index values j with
                                     | Some v => v
                                     | None => "undefined"
                                     end)
              keys))).
    { eapply Forall_impl; [|exact Hall].
      intros p (n & v & Hn & Hv & Hne & ->). exists n, v. simpl. auto. }
    destruct (truthy name) eqn:Hname; simpl.
    + destruct (index values i) as [v|] eqn:Hi; simpl.
      * destruct (truthy v) eqn:Hv; simpl.
        -- destruct name as [|a name]; [discriminate|]. simpl.
           split; [lia|]. constructor; [|exact Hrest].
           exists (String a name), v. simpl. repeat split; auto.
           ++ unfold index in Hi. eapply nth_error_In; eassumption.
           ++ intros ->. discriminate.
        -- split; [lia | exact Hrest].
      * split; [lia | exact Hrest].
    + split; [lia | exact Hrest].
Qed.

Lemma entryPairs_truthy (entry : string * OptionValue) (pairs : list string) :
  entryPairs entry = Return pairs -> Forall (fun p => truthy p = true) pairs.
Proof.
  destruct entry as [key value]. unfold entryPairs.
  destruct (toString value) as [str|e]; cbn [bind]; [|discriminate].
  destruct (assoc key optionQueryKeys) as [keys|]; [|discriminate].
  intros H. inversion H. apply Forall_forall. intros p Hp.
  apply filter_In in Hp. tauto.
Qed.

(** X5: the builder returns a query string exactly for the options whose
    names are all recognized and whose values are all defined; one entry
    with another name, or with the value [undefined], makes it throw. *)
Theorem query_returns_iff (options : ContentfulImageOptions) :
  (exists query, getContentfulImageQuery options = Return query) <->
  Forall (fun entry => recognized (fst entry) = true /\ snd entry <> VUndefined)
    options.
Proof.
  split; [|apply query_returns].
  intros [query H]. unfold getContentfulImageQuery in H.
  destruct (mapM entryPairs options) as [parts|e] eqn:Hparts; [|discriminate].
  apply mapM_returns_inv in Hparts. clear H.
  induction Hparts as [|[key value] pairs options parts Hx _ IH]; constructor.
  - exact (entryPairs_returns_inv key value pairs Hx).
  - exact IH.
Qed.

Lemma query_returns_iff_witness :
  (exists query,
      getContentfulImageQuery [("width", VNumber (Number_of_Z 40)); ("fit", VString "pad")]
      = Return query) /\
  ~ (exists query,
      getContentfulImageQuery [("width", VUndefined); ("fit", VString "pad")]
      = Return query).
Proof.
  split.
  - apply (proj2 (query_returns_iff _)).
    repeat constructor; discriminate.
  - intros H. apply (proj1 (query_returns_iff _)) in H.
    inversion H as [|entry rest [_ Hdef] _]. now apply Hdef.
Defined.

(** X6: what one entry contributes. The pairs of an entry are at most as
    many as the wire names of its option, and each one is a wire name of
    that option, an [=], and a non-empty sub-value that holds no [/]. *)
Theorem entryPairs_wellformed
    (key : string) (value : OptionValue) (pairs : list string) :
  entryPairs (key, value) = Return pairs ->
  exists keys,
    assoc key optionQueryKeys = Some keys /\
    (List.length pairs <= List.length keys)%nat /\
    Forall (fun p => exists name v,
                In name keys /\ v <> "" /\ includes "/" v = false /\
                p = name ++ "=" ++ v)
      pairs.
Proof.
  unfold entryPairs.
  destruct (toString value) as [str|e]; cbn [bind]; [|discriminate].
  destruct (assoc key optionQueryKeys) as [keys|]; [|discriminate].
  intros H. inversion H as [Hpairs]. clear H. exists keys.
  set (values := split "/" _).
  destruct (paired_filter values keys 0) as [Hlen Hall].
  split; [reflexivity|]. split; [exact Hlen|].
  eapply Forall_impl; [|exact Hall].
  intros p (name & v & Hname & Hv & Hne & ->). exists name, v.
  repeat split; auto.
  pose proof (split_no_separator "/"
                match assoc key transformers with
                | Some t => t str
                | None => str
                end) as Hsplit.
  rewrite Forall_forall in Hsplit. now apply Hsplit.
Qed.

Lemma entryPairs_wellformed_witness :
  exists keys,
    assoc "format" optionQueryKeys = Some keys /\
    (List.length ["fm=jpg"; "fl=progressive"] <= List.length keys)%nat /\
    Forall (fun p => exists name v,
                In name keys /\ v <> "" /\ includes "/" v = false /\
                p = name ++ "=" ++ v)
      ["fm=jpg"; "fl=progressive"].
Proof.
  apply (entryPairs_wellformed "format" (VString "jpg/progressive")).
  reflexivity.
Defined.

End QueryFacts.

Section QueryComposition.

Lemma join_nil (sep : string) : join sep [] = "".
Proof. reflexivity. Qed.

Lemma join_cons (sep x : string) (l : list string) :
  l <> [] -> join sep (x :: l) = x ++ sep ++ join sep l.
Proof. destruct l; [congruence | reflexivity]. Qed.

Lemma join_truthy (sep : string) (l : list string) :
  l <> [] -> Forall (fun p => truthy p = true) l -> truthy (join sep l) = true.
Proof.
  intros Hne Hall. destruct l as [|x l]; [congruence|].
  inversion Hall as [|? ? Hx _]. subst.
  destruct x as [|a x]; [discriminate|].
  destruct l; reflexivity.
Qed.

Lemma join_app (sep : string) (l1 l2 : list string) :
  l1 <> [] -> l2 <> [] ->
  join sep (l1 ++ l2)%list = join sep l1 ++ sep ++ join sep l2.
Proof.
  intros H1 H2. induction l1 as [|x l1 IH]; [congruence|].
  destruct l1 as [|y l1].
  - simpl app. now rewrite join_cons.
  - change ((x :: y :: l1) ++ l2)%list with (x :: ((y :: l1) ++ l2))%list.
    rewrite join_cons by discriminate.
    rewrite IH by discriminate.
    rewrite (join_cons sep x (y :: l1)) by discriminate.
    now rewrite !append_assoc.
Qed.

(** The pairs of all entries, as the builder joins them. *)
Lemma query_pairs (options : ContentfulImageOptions) (query : string) :
  getContentfulImageQuery options = Return query ->
  exists pairs,
    query = join "&" pairs /\ Forall (fun p => truthy p = true) pairs /\
    exists parts,
      mapM entryPairs options = Return parts /\ pairs = List.concat parts.
Proof.
  unfold getContentfulImageQuery. intros H.
  destruct (mapM entryPairs options) as [parts|e] eqn:Hparts; [|discriminate].
  inversion H. clear H. exists (List.concat parts).
  split; [reflexivity|]. split; [|eauto].
  apply mapM_returns_inv in Hparts.
  match goal with E : join _ _ = query |- _ => clear E end.
  induction Hparts as [|entry ps options parts Hx _ IH]; simpl; [constructor|].
  apply Forall_app. split; [|exact IH].
  exact (entryPairs_truthy entry ps Hx).
Qed.

(** X7: the builder follows the order of the entries. The query of two
    option lists put one after the other is the query of the first, an
    [&], and the query of the second; when one of the two queries is
    empty the result is the other one, with no [&]. *)
Theorem query_app (options1 options2 : ContentfulImageOptions) (q1 q2 : string) :
  getContentfulImageQuery options1 = Return q1 ->
  getContentfulImageQuery options2 = Return q2 ->
  getContentfulImageQuery (options1 ++ options2)%list =
  Return (if truthy q1 then if truthy q2 then q1 ++ "&" ++ q2 else q1 else q2).
Proof.
  intros H1 H2.
  destruct (query_pairs options1 q1 H1) as (l1 & -> & Hl1 & parts1 & Hp1 & ->).
  destruct (query_pairs options2 q2 H2) as (l2 & -> & Hl2 & parts2 & Hp2 & ->).
  unfold getContentfulImageQuery.
  rewrite (mapM_app entryPairs options1 options2 parts1 parts2 Hp1 Hp2).
  cbn [bind]. rewrite concat_app. f_equal.
  destruct (List.concat parts1) as [|x l1] eqn:E1.
  - reflexivity.
  - rewrite (join_truthy "&" (x :: l1)) by (assumption || discriminate).
    destruct (List.concat parts2) as [|y l2] eqn:E2.
    + now rewrite List.app_nil_r.
    + rewrite (join_truthy "&" (y :: l2)) by (assumption || discriminate).
      apply join_app; discriminate.
Qed.

Lemma query_app_witness :
  getContentfulImageQuery
    ([("format", VString "png/png8")] ++ [("fit", VString ""); ("width", VNumber (Number_of_Z 40))])%list
  = Return (if truthy "fm=png&fl=png8"
            then if truthy "w=40" then "fm=png&fl=png8" ++ "&" ++ "w=40"
                 else "fm=png&fl=png8"
            else "w=40").
Proof. apply query_app; reflexivity. Defined.

(** The query of a lone option with a single wire name. *)
Lemma query_one_wire (key wire : string) (value : OptionValue) (str : string) :
  assoc key optionQueryKeys = Some [wire] ->
  toString value = Return str ->
  getContentfulImageQuery [(key, value)] =
  Return (join "&"
            (pair_of wire
               (before_first "/"
                  match assoc key transformers with
                  | Some t => t str
                  | None => str
                  end))).
Proof.
  intros Hkeys Hstr.
  assert (Hwire : truthy wire = true).
  { revert Hkeys. unfold optionQueryKeys, assoc.
    repeat match goal with
           | |- context [String.eqb key ?k] => destruct (String.eqb key k)
           end; intros H; inversion H; reflexivity. }
  unfold getContentfulImageQuery, mapM, entryPairs.
  rewrite Hkeys, Hstr. cbn [bind].
  destruct (split_cons "/"
              match assoc key transformers with
              | Some t => t str
              | None => str
              end) as [rest ->].
  unfold mapi, mapi_from, index, nth_error, pair_of, truthy_opt.
  rewrite Hwire. cbn [negb orb].
  destruct (before_first "/" _) as [|a v]; cbn [truthy negb filter List.concat app].
  - reflexivity.
  - destruct wire; [discriminate | reflexivity].
Qed.

(** X8: for the options with one wire name and no transformer ([radius],
    [focusArea], [fit], [height], [width]) a string value is sent up to
    its first [/] only: what follows the [/] is dropped, and an option
    whose value is empty or starts with [/] sends nothing. *)
Theorem query_single_value_truncated (key wire value : string) :
  assoc key optionQueryKeys = Some [wire] ->
  assoc key transformers = None ->
  getContentfulImageQuery [(key, VString value)] =
  Return (if truthy (before_first "/" value)
          then wire ++ "=" ++ before_first "/" value
          else "").
Proof.
  intros Hkeys Htrans.
  rewrite (query_one_wire key wire (VString value) value Hkeys eq_refl).
  rewrite Htrans. unfold pair_of.
  destruct (truthy (before_first "/" value)); reflexivity.
Qed.

Lemma query_single_value_truncated_witness :
  getContentfulImageQuery [("fit", VString "crop/top")] =
  Return (if truthy (before_first "/" "crop/top")
          then "fit" ++ "=" ++ before_first "/" "crop/top"
          else "").
Proof. apply query_single_value_truncated; reflexivity. Defined.

(** X9: a background colour always sends a pair, even for the empty
    string: the pair is "bg=rgb:" followed by the value without its first
    [#], cut at its first [/]. *)
Theorem query_backgroundColor (value : string) :
  getContentfulImageQuery [("backgroundColor", VString value)] =
  Return ("bg=rgb:" ++ before_first "/" (replace "#" "" value)).
Proof.
  rewrite (query_one_wire "backgroundColor" "bg" (VString value) value eq_refl eq_refl).
  change (assoc "backgroundColor" transformers) with (Some backgroundColor).
  unfold backgroundColor.
  rewrite (before_first_app "/" "rgb:" (replace "#" "" value) eq_refl).
  reflexivity.
Qed.

End QueryComposition.

Section QueryNumbers.

Lemma includes_slash_uint (d : Decimal.uint) :
  includes "/" (NilEmpty.string_of_uint d) = false.
Proof. induction d; simpl; auto. Qed.

Lemma includes_slash_digits (p : positive) : includes "/" (digits p) = false.
Proof. apply includes_slash_uint. Qed.

Lemma includes_slash_zeros (n : nat) : includes "/" (zeros n) = false.
Proof. induction n; simpl; auto. Qed.

Lemma includes_substring (c : ascii) (s : string) (n m : nat) :
  includes c s = false -> includes c (substring n m s) = false.
Proof.
  revert n m. induction s as [|a s IH]; intros n m H.
  - destruct n, m; reflexivity.
  - simpl in H. apply orb_false_elim in H. destruct H as [Ha Hs].
    destruct n as [|n]; [destruct m as [|m]|]; simpl; auto.
    rewrite Ha. simpl. auto.
Qed.

Lemma includes_slash_Z_digits (z : Z) : includes "/" (Z_digits z) = false.
Proof. destruct z; simpl; auto using includes_slash_digits. Qed.

(** No Number stringifies with a [/] in it, and none as the empty string. *)
Lemma Number_toString_no_slash (x : Number) :
  includes "/" (Number_toString x) = false.
Proof.
  destruct x as [| [] | neg | neg s n]; try reflexivity.
  unfold Number_toString. rewrite includes_app.
  replace (includes "/" (if neg then "-" else "")) with false
    by (now destruct neg).
  unfold toString_positive. cbv zeta.
  repeat match goal with
         | |- context [if ?b then _ else _] => destruct b
         end;
    rewrite ?includes_app;
    rewrite ?includes_substring by apply includes_slash_digits;
    rewrite ?includes_slash_digits, ?includes_slash_zeros, ?includes_slash_Z_digits;
    reflexivity.
Qed.

Lemma Number_toString_truthy (x : Number) : truthy (Number_toString x) = true.
Proof.
  destruct x as [| [] | neg | neg s n]; try reflexivity.
  unfold Number_toString.
  destruct (toString_positive_head s n) as (a & r & -> & _).
  now destruct neg.
Qed.

(** X10: the numeric options with one wire name and no transformer
    ([width], [height], [radius]) are sent as the number stringifies, for
    every Number: nothing is clamped, rounded or rejected, NaN and the
    infinities included. *)
Theorem query_number_verbatim (key wire : string) (x : Number) :
  assoc key optionQueryKeys = Some [wire] ->
  assoc key transformers = None ->
  getContentfulImageQuery [(key, VNumber x)] =
  Return (wire ++ "=" ++ Number_toString x).
Proof.
  intros Hkeys Htrans.
  rewrite (query_one_wire key wire (VNumber x) (Number_toString x) Hkeys eq_refl).
  rewrite Htrans.
  rewrite (before_first_absent "/" _ (Number_toString_no_slash x)).
  unfold pair_of. now rewrite Number_toString_truthy.
Qed.

Lemma query_number_verbatim_witness :
  getContentfulImageQuery [("width", VNumber (Decimal true 40005 4))] =
  Return ("w" ++ "=" ++ Number_toString (Decimal true 40005 4)).
Proof. apply query_number_verbatim; reflexivity. Defined.

Lemma isDigit_not_slash (a : ascii) : isDigit a = true -> (a =? "/")%char = false.
Proof.
  destruct a as [[] [] [] [] [] [] [] []]; intros H; try reflexivity;
    discriminate H.
Qed.

Lemma all_digits_no_slash (s : string) :
  all_digits s = true -> includes "/" s = false.
Proof.
  induction s as [|a s IH]; simpl; [reflexivity|].
  intros H. apply andb_prop in H. destruct H as [Ha Hs].
  now rewrite (isDigit_not_slash a Ha), IH.
Qed.

Lemma truthy_Z_digits (q : Z) : 1 <= q <= 100 -> truthy (Z_digits q) = true.
Proof. apply (range_1_100 (fun q => truthy (Z_digits q))). reflexivity. Qed.

(** The two forms of a result of [quality]. *)
Lemma quality_cases (value : string) :
  quality value = "NaN" \/
  exists q, 1 <= q <= 100 /\ quality value = Z_digits q.
Proof.
  unfold quality. destruct (parseInt value) as [z|] eqn:Hparse.
  - right. exists (clamp z). split; [apply clamp_range|].
    now rewrite (quality_number_parsed value z Hparse).
  - left. now rewrite (quality_number_NaN value Hparse).
Qed.

(** X11: a [quality] option with a defined value always sends exactly the
    pair "q=" followed by the transformed value, which is "NaN" or the
    digits of an integer from 1 to 100; it is never dropped and never
    split. *)
Theorem query_quality (value : OptionValue) (str : string) :
  toString value = Return str ->
  getContentfulImageQuery [("quality", value)] = Return ("q=" ++ quality str) /\
  (quality str = "NaN" \/ exists q, 1 <= q <= 100 /\ quality str = Z_digits q).
Proof.
  intros Hstr. split; [|apply quality_cases].
  rewrite (query_one_wire "quality" "q" value str eq_refl Hstr).
  change (assoc "quality" transformers) with (Some quality).
  destruct (quality_cases str) as [-> | (q & Hq & ->)]; [reflexivity|].
  rewrite (before_first_absent "/" _
             (all_digits_no_slash _ (all_digits_Z_digits q Hq))).
  unfold pair_of. now rewrite (truthy_Z_digits q Hq).
Qed.

Lemma query_quality_witness :
  getContentfulImageQuery [("quality", VString " +077.9/x")] =
    Return ("q=" ++ quality " +077.9/x") /\
  (quality " +077.9/x" = "NaN" \/
   exists q, 1 <= q <= 100 /\ quality " +077.9/x" = Z_digits q).
Proof. apply (query_quality (VString " +077.9/x")). reflexivity. Defined.

(** X12: [quality] is idempotent on every string, and a second pass
    reads back the Number the first pass produced. *)
Theorem quality_fixed_point (value : string) :
  quality (quality value) = quality value /\
  quality_number (quality value) = quality_number value.
Proof.
  split; [apply quality_idempotent|].
  unfold quality.
  destruct (parseInt value) as [z|] eqn:Hparse.
  - rewrite (quality_number_parsed value z Hparse). simpl.
    rewrite (quality_number_parsed _ (clamp z)
               (parseInt_Z_digits (clamp z) (clamp_range z))).
    now rewrite clamp_fixed by apply clamp_range.
  - rewrite (quality_number_NaN value Hparse). reflexivity.
Qed.

End QueryNumbers.

(* ===================================================================== *)
(** ** Further properties of the composer *)
(* ===================================================================== *)

Section ComposerFacts.

(** A result of the composer, taken apart. *)
Lemma compose_result (src : ContentfulImageSource)
    (options : option ContentfulImageOptions) (result : string) :
  contentfulImage src options = Return result ->
  exists url query,
    getContentfulImageSrcUrl src = Return url /\
    getContentfulImageQuery (match options with Some o => o | None => [] end)
      = Return query /\
    result = url ++ (if truthy query then "?" ++ query else "").
Proof.
  unfold contentfulImage.
  destruct (getContentfulImageSrcUrl src) as [url|e]; cbn [bind]; [|discriminate].
  destruct (getContentfulImageQuery _) as [query|e]; cbn [bind]; [|discriminate].
  intros H. inversion H. eauto.
Qed.

(** X13: a query already present in the source URL is discarded, not
    merged: for [u] without [?], composing from [u ++ "?" ++ old] gives
    what composing from [u] gives, whatever the options. *)
Theorem compose_drops_source_query
    (u old : string) (options : option ContentfulImageOptions) :
  includes "?" u = false ->
  contentfulImage (Str (u ++ "?" ++ old)) options = contentfulImage (Str u) options.
Proof.
  intros Hu. unfold contentfulImage.
  now rewrite (resolve_query_dropped u old Hu).
Qed.

Lemma compose_drops_source_query_witness :
  contentfulImage (Str ("//a.b.c/img" ++ "?" ++ "w=9000&fm=gif"))
    (Some [("width", VNumber (Number_of_Z 40))])
  = contentfulImage (Str "//a.b.c/img") (Some [("width", VNumber (Number_of_Z 40))]).
Proof. apply compose_drops_source_query. reflexivity. Defined.

(** X14: composing again replaces the options instead of adding to them.
    A URL returned by the composer, used as the source of a second call,
    gives what the original source gives with the second options. *)
Theorem compose_again_replaces
    (src : ContentfulImageSource) (options1 options2 : option ContentfulImageOptions)
    (result : string) :
  contentfulImage src options1 = Return result ->
  contentfulImage (Str result) options2 = contentfulImage src options2.
Proof.
  intros H. destruct (compose_result src options1 result H)
    as (url & query & Hurl & _ & ->).
  assert (Hsame : getContentfulImageSrcUrl
                    (Str (url ++ (if truthy query then "?" ++ query else "")))
                  = getContentfulImageSrcUrl src).
  { rewrite Hurl. destruct (truthy query).
    - rewrite (resolve_query_dropped url query
                 (resolve_result_no_query src url Hurl)).
      rewrite resolve_string, (resolve_result_no_slashes src url Hurl).
      now rewrite (before_first_absent "?" url (resolve_result_no_query src url Hurl)).
    - rewrite append_empty_r, resolve_string.
      rewrite (resolve_result_no_slashes src url Hurl).
      now rewrite (before_first_absent "?" url (resolve_result_no_query src url Hurl)). }
  unfold contentfulImage. now rewrite Hsame.
Qed.

Lemma compose_again_replaces_witness :
  contentfulImage (Str "https://a.b.c/img?w=40&h=30") (Some [("fit", VString "pad")])
  = contentfulImage (src_fields "//a.b.c/img?x=1") (Some [("fit", VString "pad")]).
Proof.
  apply (compose_again_replaces (src_fields "//a.b.c/img?x=1")
           (Some [("width", VNumber (Number_of_Z 40));
                  ("height", VNumber (Number_of_Z 30))])).
  reflexivity.
Defined.

(** X15: the result of the composer holds a [?] exactly when the query is
    not empty, and the part before its first [?] is the resolved URL. *)
Theorem compose_query_mark
    (src : ContentfulImageSource) (options : ContentfulImageOptions)
    (result url query : string) :
  contentfulImage src (Some options) = Return result ->
  getContentfulImageSrcUrl src = Return url ->
  getContentfulImageQuery options = Return query ->
  includes "?" result = truthy query /\ before_first "?" result = url.
Proof.
  intros H Hurl Hquery.
  destruct (compose_result src (Some options) result H)
    as (url' & query' & Hurl' & Hquery' & ->).
  rewrite Hurl in Hurl'. rewrite Hquery in Hquery'.
  inversion Hurl'. inversion Hquery'. subst url' query'.
  pose proof (resolve_result_no_query src url Hurl) as Hno.
  destruct query as [|a query]; cbn [truthy].
  - rewrite append_empty_r. split; [exact Hno|].
    now apply before_first_absent.
  - split.
    + rewrite includes_app. simpl. now rewrite orb_true_r.
    + change ("?" ++ String a query) with (String "?" (String a query)).
      now apply before_first_stop.
Qed.

Lemma compose_query_mark_witness :
  includes "?" "https://a.b.c/img?fm=png&fl=png8" = truthy "fm=png&fl=png8" /\
  before_first "?" "https://a.b.c/img?fm=png&fl=png8" = "https://a.b.c/img".
Proof.
  apply (compose_query_mark (src_url "//a.b.c/img?old") [("format", VString "png/png8")]);
    reflexivity.
Defined.

End ComposerFacts.

(* ===================================================================== *)
(** ** The quality transformer on numbers in plain notation *)
(* ===================================================================== *)

Section DigitStrings.

(** Evaluate [isDigit] and [digitValue] on the characters of the goal. *)
Ltac digit_chars :=
  repeat match goal with
         | |- context [isDigit (Ascii ?a ?b ?c ?d ?e ?f ?g ?h)] =>
             let v := eval vm_compute in (isDigit (Ascii a b c d e f g h)) in
             change (isDigit (Ascii a b c d e f g h)) with v
         | |- context [digitValue (Ascii ?a ?b ?c ?d ?e ?f ?g ?h)] =>
             let v := eval vm_compute in (digitValue (Ascii a b c d e f g h)) in
             change (digitValue (Ascii a b c d e f g h)) with v
         end;
  cbv iota.

Lemma parseDigits_uint (d : Decimal.uint) (acc : Z) (rest : string) :
  parseDigits acc (NilEmpty.string_of_uint d ++ rest) =
  parseDigits (uint_value acc d) rest.
Proof.
  revert acc.
  induction d; intros acc;
    cbn [NilEmpty.string_of_uint append parseDigits uint_value];
    try reflexivity; digit_chars; rewrite IHd; do 2 f_equal; lia.
Qed.

Lemma of_uint_acc_value (d : Decimal.uint) (acc : positive) :
  Zpos (Pos.of_uint_acc d acc) = uint_value (Zpos acc) d.
Proof.
  revert acc.
  induction d; intros acc; cbn [Pos.of_uint_acc uint_value];
    try reflexivity; rewrite IHd; f_equal; lia.
Qed.

Lemma of_uint_value (d : Decimal.uint) :
  Z.of_N (Pos.of_uint d) = uint_value 0 d.
Proof.
  induction d; cbn [Pos.of_uint uint_value Z.of_N];
    try reflexivity; try assumption; apply of_uint_acc_value.
Qed.

Lemma uint_value_to_uint (p : positive) : uint_value 0 (Pos.to_uint p) = Zpos p.
Proof. now rewrite <- of_uint_value, Unsigned.of_to. Qed.

(** Reading the digits of a positive integer gives the integer back. *)
Lemma parseDigits_digits (p : positive) (rest : string) :
  parseDigits 0 (digits p ++ rest) = parseDigits (Zpos p) rest.
Proof. unfold digits. now rewrite parseDigits_uint, uint_value_to_uint. Qed.

Lemma all_digits_uint (d : Decimal.uint) :
  all_digits (NilEmpty.string_of_uint d) = true.
Proof. induction d; simpl; auto. Qed.

Lemma all_digits_digits (p : positive) : all_digits (digits p) = true.
Proof. apply all_digits_uint. Qed.

Lemma isDigit_value (a : ascii) : isDigit a = true -> 0 <= digitValue a <= 9.
Proof.
  destruct a as [[] [] [] [] [] [] [] []]; intros H; try discriminate H;
    unfold digitValue; simpl; lia.
Qed.

Lemma parseDigits_app (a b : string) (acc : Z) :
  all_digits a = true ->
  parseDigits acc (a ++ b) = parseDigits (parseDigits acc a) b.
Proof.
  revert acc. induction a as [|c a IH]; intros acc H; simpl; [reflexivity|].
  simpl in H. apply andb_prop in H. destruct H as [Hc Ha].
  rewrite Hc. now apply IH.
Qed.

Lemma parseDigits_acc (a : string) (acc : Z) :
  all_digits a = true ->
  parseDigits acc a = acc * 10 ^ Z.of_nat (String.length a) + parseDigits 0 a.
Proof.
  revert acc. induction a as [|c a IH]; intros acc H.
  - simpl. lia.
  - simpl in H. apply andb_prop in H. destruct H as [Hc Ha].
    cbn [parseDigits String.length]. rewrite Hc.
    rewrite (IH (10 * acc + digitValue c) Ha), (IH (10 * 0 + digitValue c) Ha).
    rewrite Nat2Z.inj_succ, Z.pow_succ_r by lia. ring.
Qed.

Lemma parseDigits_bound (a : string) :
  all_digits a = true ->
  0 <= parseDigits 0 a < 10 ^ Z.of_nat (String.length a).
Proof.
  induction a as [|c a IH]; intros H.
  - simpl. lia.
  - simpl in H. apply andb_prop in H. destruct H as [Hc Ha].
    cbn [parseDigits String.length]. rewrite Hc.
    rewrite (parseDigits_acc a _ Ha).
    rewrite Nat2Z.inj_succ, Z.pow_succ_r by lia.
    pose proof (isDigit_value c Hc). specialize (IH Ha).
    assert (0 < 10 ^ Z.of_nat (String.length a)) by (apply Z.pow_pos_nonneg; lia).
    nia.
Qed.

Lemma parseDigits_zeros (m : nat) (acc : Z) :
  parseDigits acc (zeros m) = acc * 10 ^ Z.of_nat m.
Proof.
  revert acc. induction m as [|m IH]; intros acc.
  - simpl. lia.
  - cbn [zeros parseDigits]. digit_chars.
    rewrite IH, Nat2Z.inj_succ, Z.pow_succ_r by lia. ring.
Qed.

Lemma all_digits_substring (s : string) (n m : nat) :
  all_digits s = true -> all_digits (substring n m s) = true.
Proof.
  revert n m. induction s as [|a s IH]; intros n m H.
  - destruct n, m; reflexivity.
  - simpl in H. apply andb_prop in H. destruct H as [Ha Hs].
    destruct n as [|n]; [destruct m as [|m]|]; simpl; auto.
    rewrite Ha. simpl. auto.
Qed.

Lemma substring_split (s : string) (n : nat) :
  (n <= String.length s)%nat ->
  s = substring 0 n s ++ substring n (String.length s - n) s /\
  String.length (substring n (String.length s - n) s) = (String.length s - n)%nat.
Proof.
  revert n. induction s as [|a s IH]; intros n Hn.
  - simpl in Hn. assert (n = O) by lia. subst. split; reflexivity.
  - destruct n as [|n].
    + simpl. clear IH Hn. split.
      * f_equal. induction s as [|b s IHs]; simpl; [reflexivity|].
        now rewrite <- IHs.
      * f_equal. induction s as [|b s IHs]; simpl; [reflexivity|].
        now rewrite IHs.
    + simpl in Hn. destruct (IH n ltac:(lia)) as [Heq Hlen].
      cbn [substring String.length Nat.sub append]. split.
      * now rewrite <- Heq.
      * exact Hlen.
Qed.

End DigitStrings.

Section QualityPlain.

Local Open Scope Z_scope.

(** What [parseInt] reads from a positive number in plain notation: the
    digits before the decimal point. *)
Lemma parseDigits_toString_positive (s : positive) (n : Z) :
  -6 < n <= 21 ->
  parseDigits 0 (toString_positive s n) = magnitude_integer s n.
Proof.
  intros Hn. unfold toString_positive, magnitude_integer.
  pose proof (all_digits_digits s) as Hds.
  pose proof (parseDigits_digits s "") as Hval.
  rewrite append_empty_r in Hval. cbn [parseDigits] in Hval.
  set (ds := digits s) in *. set (k := Z.of_nat (String.length ds)).
  cbv zeta.
  destruct (Z.leb_spec k n) as [Hkn | Hkn]; cbn [andb].
  - replace (n <=? 21) with true by (symmetry; apply Z.leb_le; lia).
    unfold ds. rewrite parseDigits_digits, parseDigits_zeros.
    rewrite Z2Nat.id by lia. reflexivity.
  - replace (n <=? 21) with true by (symmetry; apply Z.leb_le; lia).
    assert (Hpow : 0 < 10 ^ (k - n)) by (apply Z.pow_pos_nonneg; lia).
    destruct (Z.ltb_spec 0 n) as [Hpos | Hpos]; cbn [andb].
    + assert (HN : (Z.to_nat n <= String.length ds)%nat) by lia.
      destruct (substring_split ds (Z.to_nat n) HN) as [Hsplit Hlen].
      replace (Z.to_nat (k - n)) with (String.length ds - Z.to_nat n)%nat by lia.
      set (pre := substring 0 (Z.to_nat n) ds) in *.
      set (suf := substring (Z.to_nat n) (String.length ds - Z.to_nat n) ds) in *.
      assert (Hpre : all_digits pre = true) by (apply all_digits_substring, Hds).
      assert (Hsuf : all_digits suf = true) by (apply all_digits_substring, Hds).
      rewrite (parseDigits_app pre _ 0 Hpre).
      change ("." ++ suf) with (String "." suf). cbn [parseDigits].
      change (isDigit ".") with false. cbv iota.
      rewrite Hsplit, (parseDigits_app pre suf 0 Hpre) in Hval.
      rewrite (parseDigits_acc suf _ Hsuf), Hlen in Hval.
      pose proof (parseDigits_bound suf Hsuf) as Hb. rewrite Hlen in Hb.
      replace (Z.of_nat (String.length ds - Z.to_nat n)) with (k - n) in * by lia.
      apply Z.div_unique with (r := parseDigits 0 suf); [left; exact Hb | lia].
    + replace (-6 <? n) with true by (symmetry; apply Z.ltb_lt; lia).
      replace (n <=? 0) with true by (symmetry; apply Z.leb_le; lia).
      cbn [andb append parseDigits].
      change (isDigit "0") with true. change (isDigit ".") with false.
      cbv iota. change (10 * 0 + digitValue "0") with 0.
      symmetry. apply Z.div_small.
      pose proof (parseDigits_bound ds Hds) as Hb. fold k in Hb.
      rewrite Hval in Hb.
      assert (10 ^ k <= 10 ^ (k - n)) by (apply Z.pow_le_mono_r; lia).
      lia.
Qed.

Lemma parseInt_plain (neg : bool) (s : positive) (n : Z) :
  -6 < n <= 21 ->
  parseInt (Number_toString (Decimal neg s n)) =
  Some (if neg then - magnitude_integer s n else magnitude_integer s n).
Proof.
  intros Hn. rewrite <- (parseDigits_toString_positive s n Hn).
  unfold Number_toString.
  destruct (toString_positive_head s n) as (a & r & -> & Ha).
  destruct (parseInt_digit a r Ha) as [Hpos Hneg].
  destruct neg; cbn [append]; assumption.
Qed.

(** The magnitude [s * 10^(n - k)] as a rational: it is positive and its
    integer part is [magnitude_integer]. *)
Lemma magnitude_value (s : positive) (n : Z) :
  let k := Z.of_nat (String.length (digits s)) in
  let M := (inject_Z (Zpos s) * Qpower (10 # 1) (n - k))%Q in
  (0 < M)%Q /\ Qfloor M = magnitude_integer s n.
Proof.
  intros k M. split.
  - apply Qmult_lt_0_compat; [reflexivity | apply Qpower_0_lt; reflexivity].
  - unfold magnitude_integer. fold k. destruct (Z.leb_spec k n) as [Hkn | Hkn].
    + assert (HM : (M == inject_Z (Zpos s * 10 ^ (n - k)))%Q).
      { unfold M. rewrite inject_Z_mult, Zpower_Qpower by lia. reflexivity. }
      rewrite HM. apply Qfloor_Z.
    + assert (HM : (M == inject_Z (Zpos s) / inject_Z (10 ^ (k - n)))%Q).
      { unfold M, Qdiv. replace (n - k) with (- (k - n)) by lia.
        rewrite Qpower_opp, Zpower_Qpower by lia. reflexivity. }
      rewrite HM. symmetry. apply Zdiv_Qdiv.
Qed.

Lemma truncate_value (neg : bool) (s : positive) (n : Z) (v : Q) :
  Number_value (Decimal neg s n) = Some v ->
  Qtruncate v = if neg then - magnitude_integer s n else magnitude_integer s n.
Proof.
  cbn [Number_value]. intros H. inversion H as [Hv]. clear H Hv.
  destruct (magnitude_value s n) as [Hpos Hfloor].
  set (M := (inject_Z (Zpos s) * Qpower (10 # 1) _)%Q) in *.
  unfold Qtruncate. destruct neg.
  - destruct (Qle_bool 0 (- M)) eqn:E.
    + apply Qle_bool_iff in E. apply Qopp_lt_compat in Hpos.
      now apply Qlt_not_le in Hpos.
    + unfold Qceiling. rewrite Qopp_involutive. now rewrite Hfloor.
  - destruct (Qle_bool 0 M) eqn:E; [exact Hfloor|].
    apply Qlt_le_weak, Qle_bool_iff in Hpos. congruence.
Qed.

Lemma Qtruncate_le (v w : Q) : (v <= w)%Q -> Qtruncate v <= Qtruncate w.
Proof.
  intros Hvw. unfold Qtruncate.
  destruct (Qle_bool 0 v) eqn:Ev; destruct (Qle_bool 0 w) eqn:Ew.
  - now apply Qfloor_resp_le.
  - apply Qle_bool_iff in Ev.
    assert (Hw : (0 <= w)%Q) by (eapply Qle_trans; eassumption).
    apply Qle_bool_iff in Hw. congruence.
  - assert (Hv : (v <= 0)%Q).
    { apply Qlt_le_weak, Qnot_le_lt. intros H. apply Qle_bool_iff in H. congruence. }
    apply Qle_bool_iff in Ew.
    apply Qceiling_resp_le in Hv. apply Qfloor_resp_le in Ew.
    change (Qceiling 0) with 0 in Hv. change (Qfloor 0) with 0 in Ew. lia.
  - now apply Qceiling_resp_le.
Qed.

(** The integer that [parseInt] reads from a plain Number is the integer
    part of its value. *)
Lemma parseInt_plain_truncate (x : Number) (v : Q) :
  plain x -> Number_value x = Some v ->
  parseInt (Number_toString x) = Some (Qtruncate v).
Proof.
  destruct x as [| neg | neg | neg s n]; cbn [plain]; try contradiction.
  - intros _ H. inversion H. reflexivity.
  - intros Hn Hv. rewrite (truncate_value neg s n v Hv).
    now apply parseInt_plain.
Qed.

Lemma plain_value (x : Number) : plain x -> exists v, Number_value x = Some v.
Proof.
  destruct x; cbn [plain Number_value]; try contradiction; eauto.
Qed.

(** X16: for a number in plain notation (a zero, or of magnitude from
    1e-6 up to 1e21), [quality] gives the integer part of the value,
    clamped to [1, 100]. The fraction is cut off, never rounded up: the
    call of [Math.round] sees an integer already. *)
Theorem quality_plain_truncates (x : Number) (v : Q) :
  plain x ->
  Number_value x = Some v ->
  quality_number (Number_toString x) = Some (clamp (Qtruncate v)) /\
  quality (Number_toString x) = Z_digits (clamp (Qtruncate v)).
Proof.
  intros Hx Hv. pose proof (parseInt_plain_truncate x v Hx Hv) as Hparse.
  unfold quality. rewrite (quality_number_parsed _ _ Hparse).
  split; reflexivity.
Qed.

Lemma quality_plain_truncates_witness :
  quality_number (Number_toString (Decimal false 999 2)) =
    Some (clamp (Qtruncate (999 # 10))) /\
  quality (Number_toString (Decimal false 999 2)) =
    Z_digits (clamp (Qtruncate (999 # 10))).
Proof.
  apply (quality_plain_truncates (Decimal false 999 2) (999 # 10)).
  - simpl. lia.
  - reflexivity.
Defined.

(** X17: on numbers in plain notation [quality] is monotonic: for
    [x <= y] the integer produced for [x] is at most the one produced for
    [y]. *)
Theorem quality_plain_monotonic (x y : Number) :
  plain x -> plain y -> Number_le x y ->
  exists p q,
    quality_number (Number_toString x) = Some p /\
    quality_number (Number_toString y) = Some q /\
    p <= q.
Proof.
  intros Hx Hy Hle.
  destruct (plain_value x Hx) as [v Hv]. destruct (plain_value y Hy) as [w Hw].
  assert (Hvw : (v <= w)%Q).
  { destruct x as [| ? | ? | ? ? ?]; try contradiction;
      destruct y as [| ? | ? | ? ? ?]; try contradiction;
      unfold Number_le in Hle; rewrite Hv, Hw in Hle; exact Hle. }
  exists (clamp (Qtruncate v)), (clamp (Qtruncate w)).
  rewrite (quality_number_parsed _ _ (parseInt_plain_truncate x v Hx Hv)).
  rewrite (quality_number_parsed _ _ (parseInt_plain_truncate y w Hy Hw)).
  repeat split. apply clamp_monotone, Qtruncate_le, Hvw.
Qed.

Lemma quality_plain_monotonic_witness :
  exists p q,
    quality_number (Number_toString (Decimal true 25 1)) = Some p /\
    quality_number (Number_toString (Decimal false 511 2)) = Some q /\
    p <= q.
Proof.
  apply quality_plain_monotonic.
  - simpl. lia.
  - simpl. lia.
  - vm_compute. discriminate.
Defined.

End QualityPlain.
